(** * Azuma: rate-limit bucket state and IPC dispatch

    A shallow embedding of [src/src/Azuma.js] (the [AzumaRatelimit] class
    that the file carries after the [Azuma] class) and of
    [src/src/ratelimits/AzumaIPC.js].

    A JavaScript number is modelled as a rational, or [Infinity],
    [-Infinity] or [NaN]; the sign of zero is not modelled.  [Number] of a
    string and every product are rounded to the nearest double, ties to
    even, with the division of the Standard Library's specification of
    binary64; so is every sum or difference that is not a whole number.  A
    whole sum or difference is kept as it is, which is what doubles give
    up to 2^53, above any time value.  Strings are sequences of code units
    below 256. *)

From Stdlib Require Import ZArith QArith Qabs Qcanon Qround Bool List String Ascii Lia.
From Stdlib Require SpecFloat.
From stdpp Require Import gmap strings.
Import ListNotations.

Local Open Scope Z_scope.

(** ** JavaScript numbers *)

Module JS.

Inductive JNum : Type :=
| Fin (q : Qc)
| PInf
| NInf
| NaN.

Definition ofZ (z : Z) : JNum := Fin (Q2Qc (inject_Z z)).

Definition Qc_sgn (q : Qc) : comparison := Qccompare q (Q2Qc 0).

Definition Qc_ltb (a b : Qc) : bool :=
  match Qccompare a b with Lt => true | _ => false end.

Definition Qc_leb (a b : Qc) : bool :=
  match Qccompare a b with Gt => false | _ => true end.

Definition Qc_eqb (a b : Qc) : bool :=
  match Qccompare a b with Eq => true | _ => false end.

(** *** Rounding to binary64 *)

(** The value of a binary64 number of the specification. *)
Definition of_spec_float (f : SpecFloat.spec_float) : JNum :=
  match f with
  | SpecFloat.S754_zero _ => Fin (Q2Qc 0)
  | SpecFloat.S754_infinity false => PInf
  | SpecFloat.S754_infinity true => NInf
  | SpecFloat.S754_nan => NaN
  | SpecFloat.S754_finite s m e =>
      Fin (Q2Qc (inject_Z (if s then Zneg m else Zpos m) * (inject_Z 2) ^ e))
  end.

(** The double nearest to the fraction [n / d], by the correctly rounded
    division of binary64 (53 bits of precision, infinities at 2^1024). *)
Definition nearest_double (negative : bool) (n d : positive) : JNum :=
  of_spec_float
    (SpecFloat.SFdiv 53 1024
       (SpecFloat.S754_finite negative n 0) (SpecFloat.S754_finite false d 0)).

(** The double nearest to a rational: ties to even, [Infinity] beyond the
    largest double, 0 below the smallest. *)
Definition to_double (q : Qc) : JNum :=
  match Qnum (Qcanon.this q) with
  | Z0 => Fin (Q2Qc 0)
  | Zpos n => nearest_double false n (Qden (Qcanon.this q))
  | Zneg n => nearest_double true n (Qden (Qcanon.this q))
  end.

Definition is_whole (q : Qc) : bool := Pos.eqb (Qden (Qcanon.this q)) 1.

(** The result of a sum: a whole number as it is, another one rounded. *)
Definition sum_to_double (q : Qc) : JNum :=
  if is_whole q then Fin q else to_double q.

(** Unary minus. *)
Definition jneg (a : JNum) : JNum :=
  match a with
  | Fin q => Fin (Qcopp q)
  | PInf => NInf
  | NInf => PInf
  | NaN => NaN
  end.

(** [a + b] on numbers. *)
Definition jadd (a b : JNum) : JNum :=
  match a, b with
  | NaN, _ | _, NaN => NaN
  | Fin x, Fin y => sum_to_double (Qcplus x y)
  | PInf, NInf | NInf, PInf => NaN
  | PInf, _ | _, PInf => PInf
  | NInf, _ | _, NInf => NInf
  end.

(** [a - b] on numbers. *)
Definition jsub (a b : JNum) : JNum := jadd a (jneg b).

Definition inf_of_sign (c : comparison) : JNum :=
  match c with Gt => PInf | Lt => NInf | Eq => NaN end.

(** [a * b] on numbers. *)
Definition jmul (a b : JNum) : JNum :=
  match a, b with
  | NaN, _ | _, NaN => NaN
  | Fin x, Fin y => to_double (Qcmult x y)
  | Fin x, PInf | PInf, Fin x => inf_of_sign (Qc_sgn x)
  | Fin x, NInf | NInf, Fin x => inf_of_sign (CompOpp (Qc_sgn x))
  | PInf, PInf | NInf, NInf => PInf
  | PInf, NInf | NInf, PInf => NInf
  end.

(** [a < b]: false as soon as one side is [NaN]. *)
Definition jlt (a b : JNum) : bool :=
  match a, b with
  | NaN, _ | _, NaN => false
  | Fin x, Fin y => Qc_ltb x y
  | NInf, NInf | PInf, _ | _, NInf => false
  | NInf, _ | _, PInf => true
  end.

(** [a <= b]. *)
Definition jle (a b : JNum) : bool :=
  match a, b with
  | NaN, _ | _, NaN => false
  | Fin x, Fin y => Qc_leb x y
  | NInf, _ | _, PInf => true
  | PInf, _ | _, NInf => false
  end.

(** [a > b] is [b < a]. *)
Definition jgt (a b : JNum) : bool := jlt b a.

(** [!!a] on a number: false for [0] and [NaN]. *)
Definition truthy_num (a : JNum) : bool :=
  match a with
  | Fin q => negb (Qc_eqb q (Q2Qc 0))
  | PInf | NInf => true
  | NaN => false
  end.

Definition is_nan (a : JNum) : bool :=
  match a with NaN => true | _ => false end.

(** Truncation toward zero. *)
Definition Qtrunc (q : Q) : Z :=
  if Qle_bool 0 q then Qfloor q else Qceiling q.

(** The largest time value of a [Date]: 8.64e15 ms. *)
Definition MAX_TIME : Z := 8640000000000000.

(** [TimeClip]: what [new Date(n).getTime()] gives for a number [n]. *)
Definition TimeClip (a : JNum) : JNum :=
  match a with
  | Fin q =>
      if Qle_bool (Qabs q) (inject_Z MAX_TIME) then ofZ (Qtrunc q) else NaN
  | _ => NaN
  end.

(** ** JavaScript values that a header set can carry *)

Inductive JSVal : Type :=
| VUndefined
| VNull
| VBool (b : bool)
| VNum (n : JNum)
| VStr (s : string).

(** [!!v]. *)
Definition truthy (v : JSVal) : bool :=
  match v with
  | VUndefined | VNull => false
  | VBool b => b
  | VNum n => truthy_num n
  | VStr EmptyString => false
  | VStr _ => true
  end.

(** *** [StringToNumber]: the grammar [StringNumericLiteral] *)

Definition code (c : ascii) : N := N_of_ascii c.

(** White space and line terminators among the code units below 256. *)
Definition is_space (c : ascii) : bool :=
  ((9 <=? code c) && (code c <=? 13) || (code c =? 32) || (code c =? 160))%N.

(** The value of [c] as a digit of [base], for bases 2, 8, 10 and 16. *)
Definition digit_in (base : Z) (c : ascii) : option Z :=
  let n := Z.of_N (code c) in
  let v :=
    if (48 <=? n) && (n <=? 57) then Some (n - 48)
    else if (97 <=? n) && (n <=? 102) then Some (n - 87)
    else if (65 <=? n) && (n <=? 70) then Some (n - 55)
    else None in
  match v with
  | Some d => if d <? base then Some d else None
  | None => None
  end.

Fixpoint drop_space (l : list ascii) : list ascii :=
  match l with
  | c :: r => if is_space c then drop_space r else l
  | [] => []
  end.

Definition trim (l : list ascii) : list ascii :=
  rev (drop_space (rev (drop_space l))).

(** The longest prefix of digits of [base], as values, and what follows. *)
Fixpoint take_digits (base : Z) (l : list ascii) : list Z * list ascii :=
  match l with
  | c :: r =>
      match digit_in base c with
      | Some d => let '(ds, rest) := take_digits base r in (d :: ds, rest)
      | None => ([], l)
      end
  | [] => ([], [])
  end.

Definition digits_value (base : Z) (ds : list Z) : Z :=
  fold_left (fun acc d => acc * base + d) ds 0.

Definition is_char (c d : ascii) : bool := Ascii.eqb c d.

(** [ExponentPart], optional: the exponent, or [None] when what follows the
    mantissa is not an exponent part up to the end of the string. *)
Definition parse_exponent (l : list ascii) : option Z :=
  match l with
  | [] => Some 0
  | c :: r =>
      if is_char c "e" || is_char c "E" then
        let '(sg, r') :=
          match r with
          | s :: r' =>
              if is_char s "+" then (1, r')
              else if is_char s "-" then (-1, r')
              else (1, r)
          | [] => (1, r)
          end in
        match take_digits 10 r' with
        | (d :: ds, []) => Some (sg * digits_value 10 (d :: ds))
        | _ => None
        end
      else None
  end.

(** The mathematical value of a decimal literal, before it is rounded. *)
Definition decimal_value (mant : Z) (exp10 : Z) : Qc :=
  Q2Qc (inject_Z mant * (inject_Z 10) ^ exp10).

Definition Infinity_chars : list ascii := list_ascii_of_string "Infinity".

Definition chars_eqb (a b : list ascii) : bool :=
  String.eqb (string_of_list_ascii a) (string_of_list_ascii b).

(** [StrUnsignedDecimalLiteral]. *)
Definition parse_unsigned_decimal (l : list ascii) : JNum :=
  if chars_eqb l Infinity_chars then PInf
  else
    let '(ip, r1) := take_digits 10 l in
    let '(fp, r2) :=
      match r1 with
      | c :: r => if is_char c "." then take_digits 10 r else ([], r1)
      | [] => ([], r1)
      end in
    match ip ++ fp with
    | [] => NaN
    | ds =>
        match parse_exponent r2 with
        | Some e =>
            to_double (decimal_value (digits_value 10 ds) (e - Z.of_nat (List.length fp)))
        | None => NaN
        end
    end.

(** A non-decimal integer literal of [base], after its two-character prefix. *)
Definition parse_radix (base : Z) (l : list ascii) : JNum :=
  match take_digits base l with
  | (d :: ds, []) => to_double (Q2Qc (inject_Z (digits_value base (d :: ds))))
  | _ => NaN
  end.

Definition radix_of_prefix (c : ascii) : option Z :=
  if is_char c "x" || is_char c "X" then Some 16
  else if is_char c "o" || is_char c "O" then Some 8
  else if is_char c "b" || is_char c "B" then Some 2
  else None.

Definition parse_numeric (l : list ascii) : JNum :=
  match l with
  | [] => ofZ 0
  | c :: r =>
      let decimal :=
        if is_char c "+" then parse_unsigned_decimal r
        else if is_char c "-" then jneg (parse_unsigned_decimal r)
        else parse_unsigned_decimal l in
      match r with
      | p :: r' =>
          match (if is_char c "0" then radix_of_prefix p else None) with
          | Some base => parse_radix base r'
          | None => decimal
          end
      | [] => decimal
      end
  end.

Definition StringToNumber (s : string) : JNum :=
  parse_numeric (trim (list_ascii_of_string s)).

(** [Number(v)], the abstract operation [ToNumber]. *)
Definition Number (v : JSVal) : JNum :=
  match v with
  | VUndefined => NaN
  | VNull => ofZ 0
  | VBool true => ofZ 1
  | VBool false => ofZ 0
  | VNum n => n
  | VStr s => StringToNumber s
  end.

(** The global [isNaN(v)]. *)
Definition isNaN (v : JSVal) : bool := is_nan (Number v).

End JS.

(** ** Completions: a call returns normally or throws *)

Inductive JSError : Type :=
| TypeError
| Error (message : string).

Inductive Completion (A : Type) : Type :=
| Normal (a : A)
| Throw (e : JSError).

Arguments Normal {A} a.
Arguments Throw {A} e.

(** ** Strings: [includes] and [toLowerCase] *)

Module Str.

Import JS.

(** [s.includes(sub)]. *)
Fixpoint includes (s sub : string) : bool :=
  String.prefix sub s ||
  match s with
  | EmptyString => false
  | String _ r => includes r sub
  end.

Definition lower_char (c : ascii) : ascii :=
  let n := code c in
  if ((65 <=? n) && (n <=? 90))%N then ascii_of_N (n + 32)
  else if ((192 <=? n) && (n <=? 222) && negb (n =? 215))%N then ascii_of_N (n + 32)
  else c.

(** [s.toLowerCase()] on code units below 256. *)
Fixpoint toLowerCase (s : string) : string :=
  match s with
  | EmptyString => EmptyString
  | String c r => String (lower_char c) (toLowerCase r)
  end.

End Str.

(** ** The rate-limit bucket: class [AzumaRatelimit] *)

Module Ratelimit.

Import JS.

(** The two messages that [update] emits on the [debug] event; the fields
    are the values that the source interpolates into the message text. *)
Inductive DebugEvent : Type :=
| HashUpdate (route : string) (old_hash : string) (new_hash : JSVal)
| GloballyRatelimited (after : JNum).

(** The [Azuma] object as far as a bucket reads it.  The constructor in
    [Azuma.js] assigns [manager], [options] and [ratelimits] only:
    [sweepInterval] is [None] (reads as [undefined]) unless the embedding
    program assigns a number to that property. *)
Record Azuma : Type := {
  requestOffset : JNum;
  sweepInterval : option JNum;
  emitted : list DebugEvent
}.

(** The [AzumaManager] object as far as a bucket uses it: the route to hash
    mapping and the global halt scalar. *)
Record AzumaManager : Type := {
  azuma : Azuma;
  hashes : gmap string JSVal;
  timeout : JNum
}.

(** The manager shared by all buckets, the wall clock in milliseconds and
    the due times of the pending deferred clears. *)
Record World : Type := {
  manager : AzumaManager;
  clock : Z;
  timers : list Z
}.

Record AzumaRatelimit : Type := {
  id : string;
  hash : string;
  route : string;
  limit : JNum;
  remaining : JNum;
  reset : JNum;
  after : JNum
}.

(** [new AzumaRatelimit(manager, id, hash, route)]. *)
Definition new_AzumaRatelimit (i h r : string) : AzumaRatelimit :=
  {| id := i; hash := h; route := r;
     limit := ofZ (-1); remaining := ofZ (-1); reset := ofZ (-1); after := ofZ (-1) |}.

(** The update object that [constructData] builds and [update] destructures. *)
Record Data : Type := {
  d_date : JSVal;
  d_limit : JSVal;
  d_remaining : JSVal;
  d_reset : JSVal;
  d_hash : JSVal;
  d_after : JSVal;
  d_global : JSVal;
  d_reactions : JSVal
}.

(** The default [{}] of the third parameter of [update]. *)
Definition empty_Data : Data :=
  {| d_date := VUndefined; d_limit := VUndefined; d_remaining := VUndefined;
     d_reset := VUndefined; d_hash := VUndefined; d_after := VUndefined;
     d_global := VUndefined; d_reactions := VUndefined |}.

(** The third argument of a call of [update]. *)
Inductive DataArg : Type :=
| ArgUndefined
| ArgNull
| ArgObject (d : Data).

Record Request : Type := { req_route : string }.

(** A headers object: its [get] method. *)
Record Headers : Type := { get : string -> JSVal }.

(** The values of the header [name] in a list of header lines, in order. *)
Fixpoint header_values (l : list (string * string)) (name : string) : list string :=
  match l with
  | [] => []
  | (k, v) :: r =>
      if String.eqb (Str.toLowerCase k) (Str.toLowerCase name)
      then v :: header_values r name
      else header_values r name
  end.

(** A headers object after the Fetch API, which the source documents the
    response to follow: names compare case-insensitively, [get] gives
    [null] for a header that is absent and the values of a repeated header
    joined by a comma and a space. *)
Definition headers_lookup (l : list (string * string)) (name : string) : JSVal :=
  match header_values l name with
  | [] => VNull
  | v :: vs => VStr (String.concat ", " (v :: vs))
  end.

Definition fetch_Headers (l : list (string * string)) : Headers :=
  {| get := headers_lookup l |}.

(** [AzumaRatelimit.constructData(request, headers)]; [None] is an absent
    (falsy) argument. *)
Definition constructData (request : option Request) (headers : option Headers)
  : Completion Data :=
  match request, headers with
  | Some rq, Some h =>
      Normal {| d_date := get h "date";
                d_limit := get h "x-ratelimit-limit";
                d_remaining := get h "x-ratelimit-remaining";
                d_reset := get h "x-ratelimit-reset";
                d_hash := get h "X-RateLimit-Bucket";
                d_after := get h "retry-after";
                d_global := VBool (truthy (get h "x-ratelimit-global"));
                d_reactions := VBool (Str.includes (req_route rq) "reactions") |}
  | _, _ => Throw (Error "Request and Headers can't be null")
  end.

(** *** The state that a method call threads: [this] and the world *)

Record St : Type := { this : AzumaRatelimit; world : World }.

Definition M (A : Type) : Type := St -> A * St.

(** The monad operations, as instances of stdpp's [MRet] and [MBind]:
    [x ← m; k] runs [m], then [k] on its result and on the state it left. *)
#[export] Instance M_ret : MRet M := fun A a st => (a, st).

#[export] Instance M_bind : MBind M :=
  fun A B k m st => let '(a, st') := m st in k a st'.

Definition when (c : bool) (m : M unit) : M unit :=
  if c then m else mret tt.

Definition read {A} (f : St -> A) : M A := fun st => (f st, st).

Definition modify_this (f : AzumaRatelimit -> AzumaRatelimit) : M unit :=
  fun st => (tt, {| this := f (this st); world := world st |}).

Definition modify_manager (f : AzumaManager -> AzumaManager) : M unit :=
  fun st =>
    let w := world st in
    (tt, {| this := this st;
            world := {| manager := f (manager w); clock := clock w; timers := timers w |} |}).

Definition set_limit (v : JNum) : M unit :=
  modify_this (fun b =>
    {| id := id b; hash := hash b; route := route b; limit := v;
       remaining := remaining b; reset := reset b; after := after b |}).

Definition set_remaining (v : JNum) : M unit :=
  modify_this (fun b =>
    {| id := id b; hash := hash b; route := route b; limit := limit b;
       remaining := v; reset := reset b; after := after b |}).

Definition set_reset (v : JNum) : M unit :=
  modify_this (fun b =>
    {| id := id b; hash := hash b; route := route b; limit := limit b;
       remaining := remaining b; reset := v; after := after b |}).

Definition set_after (v : JNum) : M unit :=
  modify_this (fun b =>
    {| id := id b; hash := hash b; route := route b; limit := limit b;
       remaining := remaining b; reset := reset b; after := v |}).

(** [this.manager.timeout = v]. *)
Definition set_manager_timeout (v : JNum) : M unit :=
  modify_manager (fun m => {| azuma := azuma m; hashes := hashes m; timeout := v |}).

(** [this.manager.hashes.set(k, v)]. *)
Definition hashes_set (k : string) (v : JSVal) : M unit :=
  modify_manager (fun m =>
    {| azuma := azuma m; hashes := <[k := v]> (hashes m); timeout := timeout m |}).

(** [this.manager.azuma.emit('debug', e)]. *)
Definition emit_debug (e : DebugEvent) : M unit :=
  modify_manager (fun m =>
    {| azuma := {| requestOffset := requestOffset (azuma m);
                   sweepInterval := sweepInterval (azuma m);
                   emitted := emitted (azuma m) ++ [e] |};
       hashes := hashes m; timeout := timeout m |}).

(** [Date.now()]. *)
Definition Date_now : M JNum := read (fun st => ofZ (clock (world st))).

(** The largest delay of a Node.js timer, 2^31 - 1 ms. *)
Definition TIMEOUT_MAX : Z := 2147483647.

(** The delay Node.js gives a timer asked for [a] ms: a delay that is not
    within 1 .. [TIMEOUT_MAX] is set to 1, and a fractional one is
    truncated. *)
Definition timer_delay (a : JNum) : Z :=
  match a with
  | Fin q =>
      if Qle_bool 1 q && Qle_bool q (inject_Z TIMEOUT_MAX) then Qtrunc q else 1
  | _ => 1
  end.

(** [sleep(a).then(() => this.manager.timeout = 0)]: one more pending clear. *)
Definition sleep_then_clear (a : JNum) : M unit :=
  fun st =>
    let w := world st in
    (tt, {| this := this st;
            world := {| manager := manager w; clock := clock w;
                        timers := timers w ++ [clock w + timer_delay a] |} |}).

(** [a !== s] for a value [a] and a string [s]. *)
Definition strict_ne (a : JSVal) (s : string) : bool :=
  match a with
  | VStr t => negb (String.eqb t s)
  | _ => true
  end.

(** The number a property holding a number, or no such property, reads as
    under [+]. *)
Definition number_or_undefined (o : option JNum) : JNum :=
  match o with
  | Some n => n
  | None => NaN
  end.

Section Methods.

(** [Date.parse], which the host implements. *)
Variable DateParse : string -> JNum.

(** [new Date(v).getTime()]. *)
Definition Date_getTime (v : JSVal) : JNum :=
  match v with
  | VStr s => DateParse s
  | _ => TimeClip (Number v)
  end.

(** [AzumaRatelimit.getAPIOffset(date)]. *)
Definition getAPIOffset (date : JSVal) : M JNum :=
  now ← Date_now;
  mret (jsub (Date_getTime date) now).

(** [AzumaRatelimit.calculateReset(reset, date)]. *)
Definition calculateReset (reset date : JSVal) : M JNum :=
  offset ← getAPIOffset date;
  mret (jsub (TimeClip (jmul (Number reset) (ofZ 1000))) offset).

(** The getter [limited]. *)
Definition limited (st : St) : bool :=
  truthy_num (timeout (manager (world st)))
  || (jle (remaining (this st)) (ofZ 0)
      && jlt (ofZ (clock (world st))) (reset (this st))).


(** The body of [update], on the destructured [data]. *)
Definition update_body (method route : string) (data : Data) : M unit :=
  set_limit (if negb (isNaN (d_limit data)) then Number (d_limit data) else PInf);;
  set_remaining
    (if negb (isNaN (d_remaining data)) then Number (d_remaining data) else ofZ (-1));;
  r ← (if negb (isNaN (d_reset data))
       then calculateReset (d_reset data) (d_date data)
       else Date_now);
  set_reset r;;
  set_after
    (if negb (isNaN (d_after data))
     then jmul (Number (d_after data)) (ofZ 1000)
     else ofZ (-1));;
  old ← read (fun st => hash (this st));
  when (truthy (d_hash data) && strict_ne (d_hash data) old)
    (emit_debug (HashUpdate route old (d_hash data));;
     hashes_set (method +:+ ":" +:+ route) (d_hash data));;
  when (truthy (d_reactions data))
    (offset ← getAPIOffset (d_date data);
     si ← read (fun st => sweepInterval (azuma (manager (world st))));
     set_reset (jadd (jsub (Date_getTime (d_date data)) offset)
                     (number_or_undefined si)));;
  when (truthy (d_global data))
    (a ← read (fun st => after (this st));
     emit_debug (GloballyRatelimited a);;
     now ← Date_now;
     set_manager_timeout (jadd now a);;
     sleep_then_clear a).

(** [this.update(method, route, data)]: an [undefined] third argument takes
    the default [{}]; destructuring [null] throws before the body runs. *)
Definition update (method route : string) (arg : DataArg) (st : St)
  : Completion St :=
  match arg with
  | ArgUndefined => Normal (snd (update_body method route empty_Data st))
  | ArgNull => Throw TypeError
  | ArgObject d => Normal (snd (update_body method route d st))
  end.

(** *** The event loop around the bucket *)

(** The wall clock advances by [d] ms. *)
Definition tick (d : Z) (st : St) : option St :=
  if 0 <=? d then
    let w := world st in
    Some {| this := this st;
            world := {| manager := manager w; clock := clock w + d;
                        timers := timers w |} |}
  else None.

Fixpoint remove_nth {A} (i : nat) (l : list A) : list A :=
  match l, i with
  | [], _ => []
  | _ :: r, O => r
  | x :: r, S j => x :: remove_nth j r
  end.

(** The [i]-th pending clear runs, which it can once it is due: its
    callback assigns 0 to [manager.timeout]. *)
Definition fire (i : nat) (st : St) : option St :=
  let w := world st in
  match nth_error (timers w) i with
  | Some due =>
      if due <=? clock w then
        let m := manager w in
        Some {| this := this st;
                world := {| manager := {| azuma := azuma m; hashes := hashes m;
                                          timeout := ofZ 0 |};
                            clock := clock w;
                            timers := remove_nth i (timers w) |} |}
      else None
  | None => None
  end.

Inductive Action : Type :=
| Tick (d : Z)
| Fire (i : nat)
| Update (method route : string) (arg : DataArg).

(** One step of the loop; a call of [update] that throws leaves the state
    as it was, since nothing is assigned before the parameter is bound. *)
Definition exec (a : Action) (st : St) : option St :=
  match a with
  | Tick d => tick d st
  | Fire i => fire i st
  | Update m r arg =>
      match update m r arg st with
      | Normal st' => Some st'
      | Throw _ => Some st
      end
  end.

Fixpoint run (script : list Action) (st : St) : option St :=
  match script with
  | [] => Some st
  | a :: rest =>
      match exec a st with
      | Some st' => run rest st'
      | None => None
      end
  end.

(** A step that is not a call of [update]. *)
Definition passive (a : Action) : bool :=
  match a with
  | Update _ _ _ => false
  | _ => true
  end.

End Methods.

End Ratelimit.

(** ** The dispatcher: class [AzumaIPC] *)

Module IPC.

Section Dispatch.

(** The values that [message.data.op] can take. *)
Variable Op : Type.

(** The state of the IPC object and of what its handlers reach. *)
Variable State : Type.

(** What reading a property of the table [IPCEvents] gives: nothing, [null],
    a string, or another value (a number, a function), which has no
    [toLowerCase] method. *)
Inductive Lookup : Type :=
| LUndefined
| LNull
| LString (s : string)
| LOther.

(** [IPCEvents[op]]: the table belongs to the kurasuta package. *)
Variable IPCEvents : Op -> Lookup.

(** [message.data]: absent, [null], or a value whose property [op] reads as
    the given [op]. *)
Inductive MsgData : Type :=
| DataUndefined
| DataNull
| DataObject (op : Op).

Record Message : Type := { data : MsgData }.

(** A handler method: the state it leaves and the error it throws, if any. *)
Definition Handler : Type := Message -> State -> State * option JSError.

(** [this[name]], when that property is a function. *)
Variable methods : string -> option Handler.

(** What a call of the dispatcher did: the state it left, the error it
    threw, if any, and the handlers it invoked. *)
Record Outcome : Type := {
  final : State;
  thrown : option JSError;
  invoked : list string
}.

Definition returned (s : State) : Outcome :=
  {| final := s; thrown := None; invoked := [] |}.

Definition threw (s : State) (e : JSError) : Outcome :=
  {| final := s; thrown := Some e; invoked := [] |}.

(** [_incommingMessage(message)]. *)
Definition _incommingMessage (message : Message) (s : State) : Outcome :=
  match data message with
  | DataUndefined | DataNull => threw s TypeError
  | DataObject op =>
      match IPCEvents op with
      | LUndefined | LNull => returned s
      | LOther => threw s TypeError
      | LString name =>
          let event := Str.toLowerCase name in
          match event with
          | EmptyString => returned s
          | _ =>
              match methods ("_" +:+ event) with
              | Some handler =>
                  let '(s', e) := handler message s in
                  {| final := s'; thrown := e; invoked := ["_" +:+ event] |}
              | None => threw s TypeError
              end
          end
      end
  end.

End Dispatch.

Arguments DataUndefined {Op}.
Arguments DataNull {Op}.
Arguments DataObject {Op} op.
Arguments Build_Message {Op} data.
Arguments data {Op} m.
Arguments final {State} o.
Arguments thrown {State} o.
Arguments invoked {State} o.
Arguments returned {State} s.
Arguments threw {State} s e.
Arguments _incommingMessage {Op State} IPCEvents methods message s.

End IPC.

(** ** Abbreviations for what [update] decides and stores *)

Module Derived.

Import JS Ratelimit.

(** The condition under which [update] migrates the route to [d]'s hash. *)
Definition migrates (d : Data) (b : AzumaRatelimit) : bool :=
  truthy (d_hash d) && strict_ne (d_hash d) (hash b).

(** The [after] that [update] stores. *)
Definition after_of (d : Data) : JNum :=
  if negb (isNaN (d_after d)) then jmul (Number (d_after d)) (ofZ 1000)
  else ofZ (-1).

Definition is_HashUpdate (e : DebugEvent) : bool :=
  match e with
  | HashUpdate _ _ _ => true
  | GloballyRatelimited _ => false
  end.

(** [d] with another [reset] field. *)
Definition with_reset (d : Data) (v : JSVal) : Data :=
  {| d_date := d_date d; d_limit := d_limit d; d_remaining := d_remaining d;
     d_reset := v; d_hash := d_hash d; d_after := d_after d;
     d_global := d_global d; d_reactions := d_reactions d |}.

(** A step that sets no halt: time passing, a clear running, or an update
    whose header set is not flagged global. *)
Definition quiet (a : Action) : bool :=
  match a with
  | Update _ _ (ArgObject d) => negb (truthy (d_global d))
  | _ => true
  end.

(** How many hash migrations have been announced on [debug] so far. *)
Definition count_HashUpdate (st : St) : nat :=
  List.length (List.filter is_HashUpdate (emitted (azuma (manager (world st))))).

End Derived.

(** ** The properties as the specification words them *)

Module Spec.

Import JS Ratelimit.

(** [limited] as specified: the global halt lies in the future, or no
    request remains and the reset lies in the future. *)
Definition limited_as_specified (st : St) : bool :=
  jgt (timeout (manager (world st))) (ofZ (clock (world st)))
  || (jle (remaining (this st)) (ofZ 0)
      && jlt (ofZ (clock (world st))) (reset (this st))).

(** The reset time as specified: [reset * 1000 - (serverDate - now())]. *)
Definition calculateReset_as_specified
    (DateParse : string -> JNum) (reset date : JSVal) (st : St) : JNum :=
  jsub (jmul (Number reset) (ofZ 1000))
       (jsub (Date_getTime DateParse date) (ofZ (clock (world st)))).

End Spec.

(** ** Concrete inputs *)

Module Scenario.

Import JS Ratelimit.

Definition a_date : string := "Thu, 01 Jan 1970 00:00:01 GMT".

(** A [Date.parse] that knows [a_date], one second after the epoch. *)
Definition parse_a_date (s : string) : JNum :=
  if String.eqb s a_date then ofZ 1000 else NaN.

(** A fresh bucket for hash [A] in a world whose clock reads 1000 ms, with
    no halt and no pending clear. *)
Definition st0 : St :=
  {| this := new_AzumaRatelimit "A:1" "A" "/channels/1";
     world :=
       {| manager :=
            {| azuma := {| requestOffset := ofZ 500; sweepInterval := None;
                           emitted := [] |};
               hashes := ∅;
               timeout := ofZ 0 |};
          clock := 1000;
          timers := [] |} |}.

(** The same with [sweepInterval] assigned 250. *)
Definition st_sweep : St :=
  {| this := this st0;
     world :=
       {| manager :=
            {| azuma := {| requestOffset := ofZ 500; sweepInterval := Some (ofZ 250);
                           emitted := [] |};
               hashes := ∅;
               timeout := ofZ 0 |};
          clock := 1000;
          timers := [] |} |}.

(** An ordinary response: limit 5, 4 remaining, reset at [reset] seconds,
    bucket hash [h]. *)
Definition plain (reset : string) (h : JSVal) : Data :=
  {| d_date := VStr a_date; d_limit := VStr "5"; d_remaining := VStr "4";
     d_reset := VStr reset; d_hash := h; d_after := VUndefined;
     d_global := VBool false; d_reactions := VBool false |}.

(** A global rate limit with [retry-after: secs]. *)
Definition global_halt (secs : string) : Data :=
  {| d_date := VStr a_date; d_limit := VStr "5"; d_remaining := VStr "4";
     d_reset := VStr "2"; d_hash := VUndefined; d_after := VStr secs;
     d_global := VBool true; d_reactions := VBool false |}.

(** A global rate limit whose response carries no [retry-after]. *)
Definition global_halt_no_retry : Data :=
  {| d_date := VStr a_date; d_limit := VStr "5"; d_remaining := VStr "4";
     d_reset := VStr "2"; d_hash := VNull; d_after := VNull;
     d_global := VBool true; d_reactions := VBool false |}.

(** A response on a reactions route. *)
Definition on_reactions (reset : string) : Data :=
  {| d_date := VStr a_date; d_limit := VStr "5"; d_remaining := VStr "4";
     d_reset := VStr reset; d_hash := VUndefined; d_after := VUndefined;
     d_global := VBool false; d_reactions := VBool true |}.

(** A response that carries a date and nothing else. *)
Definition bare_headers : Headers := fetch_Headers [("Date", a_date)].

Definition a_request : Request := {| req_route := "/channels/1" |}.

(** A dispatch table in the shape of a numeric enumeration: code 0 names
    the event [EVAL], code 3 the event [READY], and the names map back to
    their codes.  Like every object, the table also inherits properties
    that are functions, here [constructor] and [toString]. *)
Inductive SampleOp : Type :=
| Code (n : Z)
| Name (s : string).

Definition sample_IPCEvents (op : SampleOp) : IPC.Lookup :=
  match op with
  | Code 0 => IPC.LString "EVAL"
  | Code 3 => IPC.LString "READY"
  | Name "EVAL" | Name "READY" => IPC.LOther
  | Name "constructor" | Name "toString" => IPC.LOther
  | _ => IPC.LUndefined
  end.

(** An IPC object whose state counts the messages handled and whose only
    handler is [_ready]. *)
Definition sample_methods (name : string) : option (IPC.Handler SampleOp nat) :=
  if String.eqb name "_ready" then Some (fun _ n => (S n, None)) else None.

(** A response with no request remaining, dated [date], reset at [reset]
    seconds. *)
Definition exhausted (date reset : string) : Data :=
  {| d_date := VStr date; d_limit := VStr "5"; d_remaining := VStr "0";
     d_reset := VStr reset; d_hash := VUndefined; d_after := VUndefined;
     d_global := VBool false; d_reactions := VBool false |}.


(** A response flagged [x-ratelimit-global: false], to retry after 5 s. *)
Definition global_false_headers : Headers :=
  fetch_Headers [("Date", a_date); ("X-RateLimit-Global", "false");
                 ("Retry-After", "5")].

(** Two global halts of ten seconds, 9 s apart, and the first clear. *)
Definition overlapping_halts : list Action :=
  [Update "GET" "/channels/1" (ArgObject (global_halt "10"));
   Tick 9000;
   Update "GET" "/channels/1" (ArgObject (global_halt "10"));
   Tick 1000;
   Fire 0].

(** The run of a script from [st0]. *)
Definition after_script (script : list Action) : option St :=
  run parse_a_date script st0.

End Scenario.

(** ** A condition on the registry that every step keeps *)

Module Invariants.

Import JS Ratelimit.

(** A halt that is set has a clear pending. *)
Definition halt_guarded (st : St) : bool :=
  implb (truthy_num (timeout (manager (world st))))
        (match timers (world st) with [] => false | _ :: _ => true end).

End Invariants.

(** * Properties *)

(** ** Numbers *)

Module JSFacts.

Import JS.

(** Closed equations between numbers: evaluate both sides, then compare the
    fractions. *)
Ltac jnum_eq :=
  vm_compute;
  first [ reflexivity
        | apply f_equal; apply Qc_is_canon; vm_compute; reflexivity ].

Lemma this_ofZ (z : Z) : Qcanon.this (Q2Qc (inject_Z z)) = inject_Z z.
Proof.
  simpl. apply Qred_identity. simpl. apply Z.gcd_1_r.
Qed.

Lemma Qccompare_ofZ (a b : Z) :
  Qccompare (Q2Qc (inject_Z a)) (Q2Qc (inject_Z b)) = (a ?= b).
Proof.
  unfold Qccompare. rewrite !this_ofZ.
  unfold Qcompare, inject_Z. simpl. now rewrite !Z.mul_1_r.
Qed.

Lemma jlt_ofZ (a b : Z) : jlt (ofZ a) (ofZ b) = (a <? b).
Proof.
  unfold jlt, ofZ, Qc_ltb, Z.ltb. now rewrite Qccompare_ofZ.
Qed.

Lemma jle_ofZ (a b : Z) : jle (ofZ a) (ofZ b) = (a <=? b).
Proof.
  unfold jle, ofZ, Qc_leb, Z.leb. now rewrite Qccompare_ofZ.
Qed.

Lemma Qc_eqb_eq (a b : Qc) : Qc_eqb a b = true <-> a = b.
Proof.
  unfold Qc_eqb. rewrite Qceq_alt.
  destruct (Qccompare a b); split; congruence.
Qed.

Lemma Qc_ltb_lt (a b : Qc) : Qc_ltb a b = true <-> (a < b)%Qc.
Proof.
  unfold Qc_ltb. rewrite Qclt_alt.
  destruct (Qccompare a b); split; congruence.
Qed.

(** [!!n] is true exactly when [n] is neither zero nor [NaN]. *)
Lemma truthy_num_spec (n : JNum) :
  truthy_num n = true <-> n <> ofZ 0 /\ n <> NaN.
Proof.
  destruct n as [q| | |]; simpl.
  - rewrite negb_true_iff. split.
    + intros H. split; [|discriminate].
      intros E. injection E as E.
      assert (Qc_eqb q (Q2Qc 0) = true) by (apply Qc_eqb_eq; exact E).
      congruence.
    + intros [H _]. destruct (Qc_eqb q (Q2Qc 0)) eqn:E; [|reflexivity].
      apply Qc_eqb_eq in E. subst q. now contradiction H.
  - split; [intros _; split; discriminate | reflexivity].
  - split; [intros _; split; discriminate | reflexivity].
  - split; [discriminate | intros [_ H]; now contradiction H].
Qed.

(** A number above a non-negative integer is truthy. *)
Lemma jgt_nonneg_truthy (n : JNum) (z : Z) :
  0 <= z -> jgt n (ofZ z) = true -> truthy_num n = true.
Proof.
  intros Hz Hgt. apply truthy_num_spec. split.
  - intros ->. unfold jgt in Hgt. rewrite jlt_ofZ in Hgt.
    apply Z.ltb_lt in Hgt. lia.
  - intros ->. discriminate Hgt.
Qed.

Lemma Qtrunc_Z (z : Z) : Qtrunc (inject_Z z) = z.
Proof.
  unfold Qtrunc. destruct (Qle_bool 0 (inject_Z z)).
  - apply Qfloor_Z.
  - apply Qceiling_Z.
Qed.

(** A whole number of milliseconds within the range of [Date] is a time
    value as it is. *)
Lemma TimeClip_ofZ (z : Z) :
  Z.abs z <= MAX_TIME -> TimeClip (ofZ z) = ofZ z.
Proof.
  intros Hz. unfold TimeClip, ofZ. rewrite this_ofZ.
  assert (Qle_bool (Qabs (inject_Z z)) (inject_Z MAX_TIME) = true) as ->.
  { apply Qle_bool_iff. unfold Qle, Qabs, inject_Z. simpl. lia. }
  now rewrite Qtrunc_Z.
Qed.

(** Rounding as doubles round: [0.1 + 0.2] is 0.30000000000000004,
    [1.001 * 1000] is 1000.9999999999999, [64.57 * 1000] is
    64569.99999999999, 2^53 + 1 is read as 2^53, and a literal beyond the
    doubles is [Infinity] or 0. *)
Example doubles_round :
  jadd (Number (VStr "0.1")) (Number (VStr "0.2"))
  = Fin (Q2Qc (1351079888211149 # 4503599627370496))
  /\ jmul (Number (VStr "1.001")) (ofZ 1000)
     = Fin (Q2Qc (8804889115230207 # 8796093022208))
  /\ jmul (Number (VStr "64.57")) (ofZ 1000)
     = Fin (Q2Qc (8874433225687039 # 137438953472))
  /\ Number (VStr "9007199254740993") = ofZ 9007199254740992
  /\ Number (VStr "1e400") = PInf
  /\ Number (VStr "1e-400") = ofZ 0.
Proof. repeat split; jnum_eq. Qed.

Lemma Qcplus_ofZ (a b : Z) :
  (Q2Qc (inject_Z a) + Q2Qc (inject_Z b))%Qc = Q2Qc (inject_Z (a + b)).
Proof.
  apply Qc_is_canon. cbn. rewrite !Qred_correct.
  unfold Qeq, inject_Z. cbn. lia.
Qed.

Lemma Qcopp_ofZ (a : Z) : (- Q2Qc (inject_Z a))%Qc = Q2Qc (inject_Z (- a)).
Proof.
  apply Qc_is_canon. cbn. rewrite !Qred_correct.
  unfold Qeq, inject_Z. cbn. lia.
Qed.

Lemma is_whole_ofZ (z : Z) : is_whole (Q2Qc (inject_Z z)) = true.
Proof. unfold is_whole. now rewrite this_ofZ. Qed.

(** Sums and differences of whole numbers are whole numbers. *)
Lemma jadd_whole (a b : Z) : jadd (ofZ a) (ofZ b) = ofZ (a + b).
Proof.
  unfold jadd, ofZ, sum_to_double. now rewrite Qcplus_ofZ, is_whole_ofZ.
Qed.

Lemma jsub_whole (a b : Z) : jsub (ofZ a) (ofZ b) = ofZ (a - b).
Proof.
  unfold jsub, jneg, ofZ. rewrite Qcopp_ofZ. apply jadd_whole.
Qed.

(** Subtracting a zero offset changes nothing. *)
Lemma jsub_zero_offset (a c : Z) : jsub (ofZ a) (jsub (ofZ c) (ofZ c)) = ofZ a.
Proof.
  rewrite !jsub_whole. f_equal. lia.
Qed.

Lemma timer_delay_whole (n : Z) :
  1 <= n <= Ratelimit.TIMEOUT_MAX -> Ratelimit.timer_delay (ofZ n) = n.
Proof.
  intros Hn. unfold Ratelimit.timer_delay, ofZ. rewrite this_ofZ.
  assert (Qle_bool 1 (inject_Z n) = true) as ->.
  { apply Qle_bool_iff. unfold Qle, inject_Z. simpl. lia. }
  assert (Qle_bool (inject_Z n) (inject_Z Ratelimit.TIMEOUT_MAX) = true) as ->.
  { apply Qle_bool_iff. unfold Qle, inject_Z. simpl. lia. }
  simpl. apply Qtrunc_Z.
Qed.

Lemma timer_delay_pos (a : JNum) : 1 <= Ratelimit.timer_delay a.
Proof.
  unfold Ratelimit.timer_delay. destruct a as [q| | |]; try lia.
  destruct (Qle_bool 1 q) eqn:H1; simpl; [|lia].
  destruct (Qle_bool q (inject_Z Ratelimit.TIMEOUT_MAX)); [|lia].
  apply Qle_bool_iff in H1. unfold Qtrunc.
  assert (Qle_bool 0 q = true) as ->.
  { apply Qle_bool_iff. eapply Qle_trans; [|exact H1]. discriminate. }
  change 1 with (Qfloor 1). now apply Qfloor_resp_le.
Qed.

End JSFacts.

(** ** What one call of [update] leaves behind *)

Module UpdateFacts.

Import JS Ratelimit Derived.

Ltac run_update :=
  unfold update_body, calculateReset, getAPIOffset, Date_now, read, when,
    set_limit, set_remaining, set_reset, set_after, set_manager_timeout,
    hashes_set, emit_debug, sleep_then_clear, modify_this, modify_manager,
    mbind, M_bind, mret, M_ret;
  cbn.

Ltac split_flags :=
  repeat match goal with
    | |- context [if ?c then _ else _] => destruct c eqn:?; cbn
    end.

Section WithDateParse.

Variable DateParse : string -> JNum.

Local Abbreviation upd m r d st := (snd (update_body DateParse m r d st)).

Lemma update_limit m r d st :
  limit (this (upd m r d st)) =
  if negb (isNaN (d_limit d)) then Number (d_limit d) else PInf.
Proof. run_update. split_flags; reflexivity. Qed.

Lemma update_remaining m r d st :
  remaining (this (upd m r d st)) =
  if negb (isNaN (d_remaining d)) then Number (d_remaining d) else ofZ (-1).
Proof. run_update. split_flags; reflexivity. Qed.

Lemma update_after m r d st : after (this (upd m r d st)) = after_of d.
Proof. unfold after_of. run_update. split_flags; reflexivity. Qed.

Lemma update_reset m r d st :
  reset (this (upd m r d st)) =
  let now := ofZ (clock (world st)) in
  if truthy (d_reactions d) then
    jadd (jsub (Date_getTime DateParse (d_date d))
               (jsub (Date_getTime DateParse (d_date d)) now))
         (number_or_undefined (sweepInterval (azuma (manager (world st)))))
  else if negb (isNaN (d_reset d)) then
    jsub (TimeClip (jmul (Number (d_reset d)) (ofZ 1000)))
         (jsub (Date_getTime DateParse (d_date d)) now)
  else now.
Proof. run_update. split_flags; reflexivity. Qed.

Lemma update_identity m r d st :
  id (this (upd m r d st)) = id (this st)
  /\ hash (this (upd m r d st)) = hash (this st)
  /\ route (this (upd m r d st)) = route (this st).
Proof. run_update. split_flags; auto. Qed.

Lemma update_clock m r d st : clock (world (upd m r d st)) = clock (world st).
Proof. run_update. split_flags; reflexivity. Qed.

Lemma update_hashes m r d st :
  hashes (manager (world (upd m r d st))) =
  if migrates d (this st)
  then <[m +:+ ":" +:+ r := d_hash d]> (hashes (manager (world st)))
  else hashes (manager (world st)).
Proof. unfold migrates. run_update. split_flags; reflexivity. Qed.

Lemma update_emitted m r d st :
  emitted (azuma (manager (world (upd m r d st)))) =
  emitted (azuma (manager (world st)))
  ++ (if migrates d (this st) then [HashUpdate r (hash (this st)) (d_hash d)] else [])
  ++ (if truthy (d_global d) then [GloballyRatelimited (after_of d)] else []).
Proof.
  unfold migrates, after_of. run_update.
  split_flags; rewrite <- ?app_assoc, ?app_nil_r; reflexivity.
Qed.

Lemma update_timeout m r d st :
  timeout (manager (world (upd m r d st))) =
  if truthy (d_global d) then jadd (ofZ (clock (world st))) (after_of d)
  else timeout (manager (world st)).
Proof. unfold after_of. run_update. split_flags; reflexivity. Qed.

Lemma update_timers m r d st :
  timers (world (upd m r d st)) =
  timers (world st)
  ++ (if truthy (d_global d) then [clock (world st) + timer_delay (after_of d)] else []).
Proof.
  unfold after_of. run_update. split_flags; rewrite ?app_nil_r; reflexivity.
Qed.

End WithDateParse.

End UpdateFacts.

(** ** The bucket *)

Module BucketClaims.

Import JS Ratelimit Derived JSFacts UpdateFacts.

(** *** The getter [limited] *)

(** C1, as the code has it: [limited] is true exactly when the global halt
    scalar [manager.timeout] is set (neither 0 nor NaN), or no request
    remains and the clock reads less than [reset].  On a clock that is not
    negative the specified condition, a halt value above the clock, implies
    it. *)
Theorem limited_iff_halt_set_or_exhausted (st : St) :
  (limited st = true <->
     (timeout (manager (world st)) <> ofZ 0 /\ timeout (manager (world st)) <> NaN)
     \/ (jle (remaining (this st)) (ofZ 0) = true
         /\ jlt (ofZ (clock (world st))) (reset (this st)) = true))
  /\ (0 <= clock (world st) ->
      Spec.limited_as_specified st = true -> limited st = true).
Proof.
  split.
  - unfold limited. rewrite orb_true_iff, andb_true_iff, truthy_num_spec.
    reflexivity.
  - intros Hclock. unfold Spec.limited_as_specified, limited.
    rewrite !orb_true_iff. intros [Hhalt | Hbucket].
    + left. eapply jgt_nonneg_truthy; eassumption.
    + right. exact Hbucket.
Qed.

(** C1, the claim as stated fails: right after a global halt without a
    retry-after header (which [constructData] reads as [null], hence 0 ms)
    the halt value equals the clock, and one second after a global halt of
    one second, before its deferred clear has run, it equals the clock
    again; in both states the halt value is not above the clock and requests
    remain, yet the bucket is limited. *)
Lemma limited_while_halt_not_in_future :
  match Scenario.after_script
          [Update "GET" "/channels/1" (ArgObject Scenario.global_halt_no_retry)],
        Scenario.after_script
          [Update "GET" "/channels/1" (ArgObject (Scenario.global_halt "1"));
           Tick 1000]
  with
  | Some st, Some st' =>
      (limited st = true
       /\ Spec.limited_as_specified st = false
       /\ jgt (timeout (manager (world st))) (ofZ (clock (world st))) = false
       /\ jle (remaining (this st)) (ofZ 0) = false)
      /\ (limited st' = true
          /\ Spec.limited_as_specified st' = false
          /\ jgt (timeout (manager (world st'))) (ofZ (clock (world st'))) = false
          /\ jle (remaining (this st')) (ofZ 0) = false)
  | _, _ => False
  end.
Proof. vm_compute. repeat split; reflexivity. Qed.

Section AnyDateParse.

Variable DateParse : string -> JNum.

Local Abbreviation upd m r d st := (snd (update_body DateParse m r d st)).

(** *** The reset time *)

(** C5: on a reactions route [update] leaves [reset] at
    [serverDate - offset + sweepInterval], where [offset] is
    [serverDate - now()], whatever the [reset] field of the header set is. *)
Theorem reactions_route_reset_ignores_header m r d st :
  truthy (d_reactions d) = true ->
  let serverDate := Date_getTime DateParse (d_date d) in
  let offset := jsub serverDate (ofZ (clock (world st))) in
  forall v : JSVal,
    reset (this (upd m r (with_reset d v) st)) =
    jadd (jsub serverDate offset)
         (number_or_undefined (sweepInterval (azuma (manager (world st))))).
Proof.
  intros Hreact serverDate offset v. rewrite update_reset. cbn.
  now rewrite Hreact.
Qed.

(** An [Azuma] object without a [sweepInterval] property, which is what the
    constructor in [Azuma.js] builds, makes that sum [NaN]. *)
Lemma reactions_route_reset_without_sweepInterval m r d st :
  truthy (d_reactions d) = true ->
  sweepInterval (azuma (manager (world st))) = None ->
  reset (this (upd m r d st)) = NaN.
Proof.
  intros Hreact Hnone. rewrite update_reset. cbn. rewrite Hreact, Hnone. cbn.
  destruct (jsub _ _); reflexivity.
Qed.

(** The header set that [constructData] builds marks a route as special
    exactly when the route of the request contains [reactions]. *)
Lemma constructData_reactions rq h d :
  constructData (Some rq) (Some h) = Normal d ->
  truthy (d_reactions d) = Str.includes (req_route rq) "reactions".
Proof. intros E. injection E as <-. reflexivity. Qed.

(** C6, as the code has it: the reset time is the time value of
    [new Date(reset * 1000)], which is the product [reset * 1000], as
    doubles give it, truncated to whole milliseconds and NaN beyond
    8.64e15, minus the clock offset [serverDate - now()]; [calculateReset]
    changes no state.  When that product is a whole number [ms] of
    milliseconds within that range the result is [ms] minus the offset, and
    [ms] itself under a zero offset. *)
Theorem calculateReset_clips_then_subtracts_offset reset date st :
  let now := ofZ (clock (world st)) in
  let serverDate := Date_getTime DateParse date in
  let result := fst (calculateReset DateParse reset date st) in
  fst (getAPIOffset DateParse date st) = jsub serverDate now
  /\ result = jsub (TimeClip (jmul (Number reset) (ofZ 1000))) (jsub serverDate now)
  /\ snd (calculateReset DateParse reset date st) = st
  /\ (forall ms : Z,
        jmul (Number reset) (ofZ 1000) = ofZ ms -> Z.abs ms <= MAX_TIME ->
        result = jsub (ofZ ms) (jsub serverDate now)
        /\ (serverDate = now -> result = ofZ ms)).
Proof.
  cbn. split; [reflexivity|]. split; [reflexivity|]. split; [reflexivity|].
  intros ms Hms Hrange.
  unfold calculateReset, getAPIOffset, Date_now, read, mbind, M_bind, mret, M_ret.
  cbn. rewrite Hms, TimeClip_ofZ by assumption. split; [reflexivity|].
  intros ->. apply jsub_zero_offset.
Qed.

(** C9, as the code has it: every [update] overwrites [reset] with a value
    computed from that call's header set, the clock and [sweepInterval]
    alone; the value [reset] had before plays no part, and [update] never
    changes the bucket's own [hash]. *)
Theorem reset_is_overwritten_from_headers m r d st :
  let now := ofZ (clock (world st)) in
  let serverDate := Date_getTime DateParse (d_date d) in
  reset (this (upd m r d st)) =
    (if truthy (d_reactions d) then
       jadd (jsub serverDate (jsub serverDate now))
            (number_or_undefined (sweepInterval (azuma (manager (world st)))))
     else if negb (isNaN (d_reset d)) then
       jsub (TimeClip (jmul (Number (d_reset d)) (ofZ 1000))) (jsub serverDate now)
     else now)
  /\ hash (this (upd m r d st)) = hash (this st)
  /\ (forall st',
        clock (world st') = clock (world st) ->
        sweepInterval (azuma (manager (world st')))
        = sweepInterval (azuma (manager (world st))) ->
        reset (this (upd m r d st')) = reset (this (upd m r d st))).
Proof.
  cbn. split; [apply update_reset|]. split; [apply update_identity|].
  intros st' Hclock Hsweep. rewrite !update_reset. cbn.
  now rewrite Hclock, Hsweep.
Qed.

(** *** Validation *)

(** C8, as the code has it: it is [constructData] that throws when the
    request or the headers are absent, and it reads and writes no bucket or
    registry state.  [update] validates nothing: without a header set it
    takes the empty one, returns normally and overwrites the bucket with
    the fallback values; given [null] it throws a [TypeError] before any
    assignment. *)
Theorem validation_is_in_constructData m r st request headers :
  constructData None headers = Throw (Error "Request and Headers can't be null")
  /\ constructData request None = Throw (Error "Request and Headers can't be null")
  /\ update DateParse m r ArgUndefined st = Normal (upd m r empty_Data st)
  /\ limit (this (upd m r empty_Data st)) = PInf
  /\ remaining (this (upd m r empty_Data st)) = ofZ (-1)
  /\ reset (this (upd m r empty_Data st)) = ofZ (clock (world st))
  /\ after (this (upd m r empty_Data st)) = ofZ (-1)
  /\ update DateParse m r ArgNull st = Throw TypeError
  /\ exec DateParse (Update m r ArgNull) st = Some st.
Proof.
  repeat split.
  destruct request; reflexivity.
Qed.

End AnyDateParse.

(** C5, at a concrete input: a reactions route with [sweepInterval] 250 and
    no clock offset. *)
Lemma reactions_route_reset_example :
  reset (this (snd (update_body Scenario.parse_a_date "PUT" "/channels/1/reactions"
                      (with_reset (Scenario.on_reactions "20") (VStr "99"))
                      Scenario.st_sweep)))
  = ofZ 1250.
Proof.
  etransitivity.
  - apply (reactions_route_reset_ignores_header Scenario.parse_a_date
             "PUT" "/channels/1/reactions" (Scenario.on_reactions "20")
             Scenario.st_sweep).
    reflexivity.
  - vm_compute. reflexivity.
Defined.

(** C6, the claim as stated fails: for the numeric reset header
    [0.0078125] and no clock offset the reset time is 7, not
    [0.0078125 * 1000 = 7.8125]. *)
Lemma calculateReset_truncates_fraction :
  isNaN (VStr "0.0078125") = false
  /\ Date_getTime Scenario.parse_a_date (VStr Scenario.a_date)
     = ofZ (clock (world Scenario.st0))
  /\ fst (calculateReset Scenario.parse_a_date (VStr "0.0078125")
            (VStr Scenario.a_date) Scenario.st0) = ofZ 7
  /\ jmul (Number (VStr "0.0078125")) (ofZ 1000) = Fin (Q2Qc (125 # 16))
  /\ fst (calculateReset Scenario.parse_a_date (VStr "0.0078125")
            (VStr Scenario.a_date) Scenario.st0)
     <> Spec.calculateReset_as_specified Scenario.parse_a_date
          (VStr "0.0078125") (VStr Scenario.a_date) Scenario.st0.
Proof.
  repeat split; try jnum_eq.
  intros E. apply (f_equal (fun n => jlt (ofZ 7) n)) in E.
  vm_compute in E. discriminate E.
Qed.

(** C6, with a rounded product: [1.001 * 1000] is 1000.9999999999999 in
    doubles, below 1001, so that the reset time under a zero offset is
    1000. *)
Example calculateReset_rounds_product :
  jlt (jmul (Number (VStr "1.001")) (ofZ 1000)) (ofZ 1001) = true
  /\ jlt (ofZ 1000) (jmul (Number (VStr "1.001")) (ofZ 1000)) = true
  /\ fst (calculateReset Scenario.parse_a_date (VStr "1.001")
            (VStr Scenario.a_date) Scenario.st0) = ofZ 1000.
Proof. repeat split; jnum_eq. Qed.

(** C7, the code at the failing input: a response without the limit and
    remaining headers gives [null] for both through [constructData], and
    [update] then stores 0 and 0, not Infinity and -1. *)
Lemma absent_headers_read_as_zero :
  match constructData (Some Scenario.a_request) (Some Scenario.bare_headers) with
  | Normal d =>
      d_limit d = VNull /\ d_remaining d = VNull
      /\ isNaN VNull = false
      /\ limit (this (snd (update_body Scenario.parse_a_date "GET" "/channels/1"
                             d Scenario.st0))) = ofZ 0
      /\ remaining (this (snd (update_body Scenario.parse_a_date "GET" "/channels/1"
                                 d Scenario.st0))) = ofZ 0
  | Throw _ => False
  end.
Proof. vm_compute. repeat split; reflexivity. Qed.

(** C8, the claim as stated fails: [update] without a header set returns
    normally and changes the bucket. *)
Lemma update_without_header_set_succeeds :
  match update Scenario.parse_a_date "GET" "/channels/1" ArgUndefined Scenario.st0 with
  | Normal st' =>
      limit (this Scenario.st0) = ofZ (-1)
      /\ limit (this st') = PInf
      /\ reset (this Scenario.st0) = ofZ (-1)
      /\ reset (this st') = ofZ 1000
  | Throw _ => False
  end.
Proof. vm_compute. repeat split; reflexivity. Qed.

(** C9, the claim as stated fails: two updates that carry the bucket's own
    hash, the second with an earlier reset header, move [reset] back from
    20000 to 10000. *)
Lemma reset_moves_back_within_hash_epoch :
  match Scenario.after_script
          [Update "GET" "/channels/1" (ArgObject (Scenario.plain "20" (VStr "A")))],
        Scenario.after_script
          [Update "GET" "/channels/1" (ArgObject (Scenario.plain "20" (VStr "A")));
           Update "GET" "/channels/1" (ArgObject (Scenario.plain "10" (VStr "A")))]
  with
  | Some s1, Some s2 =>
      reset (this s1) = ofZ 20000
      /\ reset (this s2) = ofZ 10000
      /\ jlt (reset (this s2)) (reset (this s1)) = true
      /\ hash (this s2) = hash (this s1)
      /\ hashes (manager (world s2)) = hashes (manager (world s1))
      /\ count_HashUpdate s2 = O
  | _, _ => False
  end.
Proof. vm_compute. repeat split; reflexivity. Qed.

End BucketClaims.

(** ** The global halt and the hash migration *)

Module RegistryClaims.

Import JS Ratelimit Derived JSFacts UpdateFacts.

Section AnyDateParse.

Variable DateParse : string -> JNum.

Local Abbreviation upd m r d st := (snd (update_body DateParse m r d st)).

(** The clock never goes back while time passes and clears run. *)
Lemma passive_run_clock script : forall st st',
  forallb passive script = true ->
  run DateParse script st = Some st' ->
  clock (world st) <= clock (world st').
Proof.
  induction script as [|a script IH]; intros st st' Hpassive Hrun; cbn in *.
  - injection Hrun as <-. lia.
  - apply andb_true_iff in Hpassive as [Ha Hrest].
    destruct a as [d | i | m r arg]; cbn in *; [| |discriminate].
    + unfold tick in Hrun. destruct (0 <=? d) eqn:Hd; [|discriminate].
      apply Z.leb_le in Hd. apply IH in Hrun; [|assumption]. cbn in Hrun. lia.
    + unfold fire in Hrun.
      destruct (nth_error (timers (world st)) i) as [due|]; [|discriminate].
      destruct (due <=? clock (world st)); [|discriminate].
      apply IH in Hrun; [|assumption]. exact Hrun.
Qed.

(** With a single clear pending, the halt scalar stays as it is for as long
    as the clock reads less than the time that clear is due. *)
Lemma passive_run_single_timer script : forall st st' due,
  forallb passive script = true ->
  run DateParse script st = Some st' ->
  timers (world st) = [due] ->
  clock (world st') < due ->
  timeout (manager (world st')) = timeout (manager (world st)).
Proof.
  induction script as [|a script IH]; intros st st' due Hpassive Hrun Htimers Hclock;
    cbn in *.
  - now injection Hrun as <-.
  - apply andb_true_iff in Hpassive as [Ha Hrest].
    destruct a as [d | i | m r arg]; cbn in *; [| |discriminate].
    + unfold tick in Hrun. destruct (0 <=? d); [|discriminate].
      now apply (IH _ _ due Hrest) in Hrun.
    + unfold fire in Hrun. rewrite Htimers in Hrun.
      destruct i as [|j]; cbn in Hrun; [|destruct j; discriminate].
      destruct (due <=? clock (world st)) eqn:Hdue; [|discriminate].
      apply Z.leb_le in Hdue.
      apply passive_run_clock in Hrun; [|assumption]. cbn in Hrun. lia.
Qed.

(** An update that is not flagged global leaves the halt, the pending
    clears and the clock as they are. *)
Lemma quiet_exec a st st' :
  quiet a = true ->
  exec DateParse a st = Some st' ->
  (forall d, a <> Tick d) -> (forall i, a <> Fire i) ->
  timeout (manager (world st')) = timeout (manager (world st))
  /\ timers (world st') = timers (world st)
  /\ clock (world st') = clock (world st).
Proof.
  intros Hquiet Hexec Htick Hfire.
  destruct a as [d | i | m r arg]; [now contradiction (Htick d) | now contradiction (Hfire i) |].
  assert (forall d, truthy (d_global d) = false ->
            timeout (manager (world (upd m r d st))) = timeout (manager (world st))
            /\ timers (world (upd m r d st)) = timers (world st)
            /\ clock (world (upd m r d st)) = clock (world st)) as Hupd.
  { intros d Hd. rewrite update_timeout, update_timers, update_clock, Hd.
    now rewrite app_nil_r. }
  destruct arg as [| |d]; cbn [exec update] in Hexec; injection Hexec as <-.
  - exact (Hupd empty_Data eq_refl).
  - auto.
  - apply Hupd. cbn in Hquiet. now apply negb_true_iff in Hquiet.
Qed.

(** The clock never goes back while no halt is set anew. *)
Lemma quiet_run_clock script : forall st st',
  forallb quiet script = true ->
  run DateParse script st = Some st' ->
  clock (world st) <= clock (world st').
Proof.
  induction script as [|a script IH]; intros st st' Hquiet Hrun; cbn in Hquiet, Hrun.
  - injection Hrun as <-. lia.
  - apply andb_true_iff in Hquiet as [Ha Hrest].
    destruct (exec DateParse a st) as [st1|] eqn:Hexec; [|discriminate].
    specialize (IH _ _ Hrest Hrun).
    destruct a as [d | i | m r arg].
    + cbn in Hexec. unfold tick in Hexec. destruct (0 <=? d) eqn:Hd; [|discriminate].
      apply Z.leb_le in Hd. injection Hexec as <-. cbn in IH. lia.
    + cbn in Hexec. unfold fire in Hexec.
      destruct (nth_error (timers (world st)) i) as [due|]; [|discriminate].
      destruct (due <=? clock (world st)); [|discriminate].
      injection Hexec as <-. exact IH.
    + destruct (quiet_exec _ _ _ Ha Hexec) as (_ & _ & Hclock);
        [discriminate | discriminate |]. lia.
Qed.

(** With a single clear pending and no halt set anew, the halt scalar stays
    as it is for as long as the clock reads less than the time that clear
    is due. *)
Lemma quiet_run_single_timer script : forall st st' due,
  forallb quiet script = true ->
  run DateParse script st = Some st' ->
  timers (world st) = [due] ->
  clock (world st') < due ->
  timeout (manager (world st')) = timeout (manager (world st)).
Proof.
  induction script as [|a script IH]; intros st st' due Hquiet Hrun Htimers Hclock;
    cbn in Hquiet, Hrun.
  - now injection Hrun as <-.
  - apply andb_true_iff in Hquiet as [Ha Hrest].
    destruct (exec DateParse a st) as [st1|] eqn:Hexec; [|discriminate].
    destruct a as [d | i | m r arg].
    + cbn in Hexec. unfold tick in Hexec. destruct (0 <=? d); [|discriminate].
      injection Hexec as <-. now apply (IH _ _ due Hrest) in Hrun.
    + cbn in Hexec. unfold fire in Hexec. rewrite Htimers in Hexec.
      destruct i as [|j]; cbn in Hexec; [|destruct j; discriminate].
      destruct (due <=? clock (world st)) eqn:Hdue; [|discriminate].
      apply Z.leb_le in Hdue. injection Hexec as <-.
      apply quiet_run_clock in Hrun; [|assumption]. cbn in Hrun. lia.
    + destruct (quiet_exec _ _ _ Ha Hexec) as (Hhalt & Htm & _);
        [discriminate | discriminate |].
      rewrite <- Hhalt. apply (IH _ _ due Hrest Hrun); [congruence | exact Hclock].
Qed.

(** C2, as the code has it: an update with a truthy [global] and a numeric
    [retry-after] of R seconds assigns [now() + R * 1000] to
    [manager.timeout] and leaves one more deferred clear pending, due after
    the delay Node.js gives a timer of [R * 1000] ms, which is [R * 1000]
    when that product, as doubles give it, is a whole number from 1 to
    2^31 - 1.  If no clear was pending before the call, then through every
    sequence of passing time, clears that run and updates that are not
    flagged global, the halt keeps that value for as long as the clock
    reads less than that due time. *)
Theorem global_halt_set_then_kept_until_due m r d st :
  truthy (d_global d) = true ->
  isNaN (d_after d) = false ->
  let st1 := upd m r d st in
  let halt := jadd (ofZ (clock (world st))) (jmul (Number (d_after d)) (ofZ 1000)) in
  let due := clock (world st) + timer_delay (jmul (Number (d_after d)) (ofZ 1000)) in
  timeout (manager (world st1)) = halt
  /\ timers (world st1) = timers (world st) ++ [due]
  /\ clock (world st) < due
  /\ (forall ms : Z,
        jmul (Number (d_after d)) (ofZ 1000) = ofZ ms ->
        1 <= ms <= TIMEOUT_MAX ->
        due = clock (world st) + ms)
  /\ (timers (world st) = [] ->
      forall script st',
        forallb quiet script = true ->
        run DateParse script st1 = Some st' ->
        clock (world st') < due ->
        timeout (manager (world st')) = halt).
Proof.
  intros Hglobal Hnum st1 halt due.
  assert (after_of d = jmul (Number (d_after d)) (ofZ 1000)) as Hafter.
  { unfold after_of. now rewrite Hnum. }
  assert (timeout (manager (world st1)) = halt) as Hhalt.
  { subst st1 halt. now rewrite update_timeout, Hglobal, Hafter. }
  assert (timers (world st1) = timers (world st) ++ [due]) as Htimers.
  { subst st1 due. now rewrite update_timers, Hglobal, Hafter. }
  repeat split; try assumption.
  - subst due. pose proof (timer_delay_pos (jmul (Number (d_after d)) (ofZ 1000))). lia.
  - intros ms Hms Hrange. subst due. now rewrite Hms, timer_delay_whole.
  - intros Hnone script st' Hquiet Hrun Hclock.
    rewrite Hnone in Htimers. cbn in Htimers.
    rewrite <- Hhalt.
    eapply quiet_run_single_timer; eassumption.
Qed.

(** C3, as the code has it: [update] migrates whenever the hash of the
    header set is truthy and differs from the bucket's own [hash], which no
    update changes.  Each such call sets the (method:route) entry to that
    hash and emits one event; a second call with the same header set on the
    same bucket leaves the mapping as the first left it and emits the event
    again.  A hash that is absent, empty or equal to the bucket's own
    changes neither the mapping nor the events. *)
Theorem migration_is_decided_against_bucket_hash m r d st :
  let st1 := upd m r d st in
  let st2 := upd m r d st1 in
  let key := m +:+ ":" +:+ r in
  if migrates d (this st) then
    hashes (manager (world st1)) = <[key := d_hash d]> (hashes (manager (world st)))
    /\ hashes (manager (world st1)) !! key = Some (d_hash d)
    /\ count_HashUpdate st1 = S (count_HashUpdate st)
    /\ hashes (manager (world st2)) = hashes (manager (world st1))
    /\ count_HashUpdate st2 = S (S (count_HashUpdate st))
  else
    hashes (manager (world st1)) = hashes (manager (world st))
    /\ count_HashUpdate st1 = count_HashUpdate st
    /\ hashes (manager (world st2)) = hashes (manager (world st))
    /\ count_HashUpdate st2 = count_HashUpdate st.
Proof.
  cbn.
  assert (forall s, count_HashUpdate (upd m r d s) =
                    ((if migrates d (this s) then 1 else 0) + count_HashUpdate s)%nat)
    as Hcount.
  { intros s. unfold count_HashUpdate. rewrite update_emitted.
    rewrite !List.filter_app, !List.length_app.
    destruct (migrates d (this s)), (truthy (d_global d)); cbn; lia. }
  assert (migrates d (this (upd m r d st)) = migrates d (this st)) as Hsame.
  { unfold migrates. now rewrite (proj1 (proj2 (update_identity DateParse m r d st))). }
  rewrite !Hcount, !update_hashes, Hsame.
  destruct (migrates d (this st)).
  - repeat split; try reflexivity.
    + apply lookup_insert_eq.
    + apply insert_insert_eq.
  - repeat split; reflexivity.
Qed.

End AnyDateParse.

(** C2, at a concrete input: a halt of ten seconds set at 1000 ms with no
    clear pending is still in place at 10999 ms, an ordinary update in
    between notwithstanding. *)
Lemma global_halt_example :
  let st1 := snd (update_body Scenario.parse_a_date "GET" "/channels/1"
                    (Scenario.global_halt "10") Scenario.st0) in
  timeout (manager (world st1)) = ofZ 11000
  /\ timers (world st1) = [11000]
  /\ exists st',
       run Scenario.parse_a_date
         [Tick 5000;
          Update "GET" "/channels/1" (ArgObject (Scenario.plain "20" (VStr "A")));
          Tick 4999] st1 = Some st'
       /\ timeout (manager (world st')) = ofZ 11000.
Proof.
  destruct (global_halt_set_then_kept_until_due Scenario.parse_a_date
              "GET" "/channels/1" (Scenario.global_halt "10") Scenario.st0
              eq_refl eq_refl) as (Hhalt & Htimers & _ & _ & Hkept).
  split; [rewrite Hhalt; jnum_eq|].
  split; [rewrite Htimers; vm_compute; reflexivity|].
  eexists. split; [vm_compute; reflexivity|].
  transitivity (jadd (ofZ (clock (world Scenario.st0)))
                  (jmul (Number (d_after (Scenario.global_halt "10"))) (ofZ 1000)));
    [|jnum_eq].
  apply (Hkept eq_refl
           [Tick 5000;
            Update "GET" "/channels/1" (ArgObject (Scenario.plain "20" (VStr "A")));
            Tick 4999]);
    vm_compute; reflexivity.
Defined.

(** C2, with a fraction: [64.57 * 1000] is 64569.99999999999 in doubles, so
    that the timer runs for 64569 ms, while the halt value, rounded in
    turn, is 65570 on a clock that reads 1000. *)
Example fractional_retry_after :
  let st1 := snd (update_body Scenario.parse_a_date "GET" "/channels/1"
                    (Scenario.global_halt "64.57") Scenario.st0) in
  jlt (after (this st1)) (ofZ 64570) = true
  /\ timers (world st1) = [1000 + 64569]
  /\ timeout (manager (world st1)) = ofZ 65570.
Proof. cbv zeta. repeat split; jnum_eq. Qed.

(** C2, the claim as stated fails: a halt of ten seconds set at 10000 ms,
    while the clear of a halt set at 1000 ms is still pending, is cleared by
    that earlier clear at 11000 ms, 1000 ms after it was set. *)
Lemma later_halt_cleared_by_earlier_clear :
  match Scenario.after_script
          [Update "GET" "/channels/1" (ArgObject (Scenario.global_halt "10"));
           Tick 9000;
           Update "GET" "/channels/1" (ArgObject (Scenario.global_halt "10"))],
        Scenario.after_script
          [Update "GET" "/channels/1" (ArgObject (Scenario.global_halt "10"));
           Tick 9000;
           Update "GET" "/channels/1" (ArgObject (Scenario.global_halt "10"));
           Tick 1000;
           Fire 0]
  with
  | Some set, Some cleared =>
      clock (world set) = 10000
      /\ timeout (manager (world set)) = ofZ 20000
      /\ timers (world set) = [11000; 20000]
      /\ clock (world cleared) = 11000
      /\ timeout (manager (world cleared)) = ofZ 0
      /\ clock (world cleared) < clock (world set) + 10 * 1000
  | _, _ => False
  end.
Proof. vm_compute. repeat split; reflexivity. Qed.

(** C3, the claim as stated fails: the same new hash applied twice to one
    bucket emits the migration event twice. *)
Lemma same_hash_twice_emits_twice :
  match Scenario.after_script
          [Update "GET" "/channels/1" (ArgObject (Scenario.plain "20" (VStr "B")))],
        Scenario.after_script
          [Update "GET" "/channels/1" (ArgObject (Scenario.plain "20" (VStr "B")));
           Update "GET" "/channels/1" (ArgObject (Scenario.plain "20" (VStr "B")))]
  with
  | Some once, Some twice =>
      count_HashUpdate once = 1%nat
      /\ count_HashUpdate twice = 2%nat
      /\ hashes (manager (world twice)) = hashes (manager (world once))
      /\ hash (this twice) = "A"
  | _, _ => False
  end.
Proof. vm_compute. repeat split; reflexivity. Qed.

End RegistryClaims.

(** ** The dispatcher *)

Module DispatchClaims.

Import IPC.

Section AnyTable.

Context {Op State : Type}.
Variable IPCEvents : Op -> Lookup.
Variable methods : string -> option (Handler Op State).

(** A message whose [op] the table [IPCEvents] has no entry for is
    dropped: the call returns without an error, invokes no handler and
    leaves the state as it was. *)
Theorem unknown_op_is_dropped (message : Message Op) (s : State) (op : Op) :
  data message = DataObject op ->
  IPCEvents op = LUndefined ->
  final (_incommingMessage IPCEvents methods message s) = s
  /\ thrown (_incommingMessage IPCEvents methods message s) = None
  /\ invoked (_incommingMessage IPCEvents methods message s) = [].
Proof.
  intros Hdata Hnone. unfold _incommingMessage. rewrite Hdata, Hnone.
  repeat split.
Qed.

(** An [op] under which the table holds a value that is not a string, such
    as the name of an enumeration member or an inherited property, is not
    dropped: lower-casing that value throws. *)
Lemma non_string_entry_raises (message : Message Op) (s : State) (op : Op) :
  data message = DataObject op ->
  IPCEvents op = LOther ->
  _incommingMessage IPCEvents methods message s = threw s TypeError.
Proof.
  intros Hdata Hother. unfold _incommingMessage. now rewrite Hdata, Hother.
Qed.

(** C4, as the code has it: an [op] that names no event is dropped only
    when the table has nothing under it: when [IPCEvents[op]] is undefined
    or null the call returns without an error, invokes no handler and
    leaves the state as it was.  When the table holds under [op] a value
    that is not a string, such as the code that the name of an event maps
    back to or a function that every object inherits, the message is not
    dropped: the call throws a [TypeError], still with no handler invoked
    and the state as it was. *)
Theorem unrecognized_op_dropped_or_raises (message : Message Op) (s : State) (op : Op) :
  data message = DataObject op ->
  (IPCEvents op = LUndefined \/ IPCEvents op = LNull ->
   _incommingMessage IPCEvents methods message s = returned s)
  /\ (IPCEvents op = LOther ->
      _incommingMessage IPCEvents methods message s = threw s TypeError).
Proof.
  intros Hdata. unfold _incommingMessage. rewrite Hdata. split.
  - intros [-> | ->]; reflexivity.
  - intros ->. reflexivity.
Qed.

(** C10: a message without [data] makes the dispatcher throw a [TypeError],
    with no handler invoked and the state as it was; and a call that
    returns without an error was given a message that carries [data]. *)
Theorem absent_data_raises (s : State) :
  _incommingMessage IPCEvents methods {| data := DataUndefined |} s
  = threw s TypeError
  /\ (forall message : Message Op,
        thrown (_incommingMessage IPCEvents methods message s) = None ->
        exists op, data message = DataObject op).
Proof.
  split; [reflexivity|].
  intros [[| |op]]; cbn; try discriminate. eauto.
Qed.

End AnyTable.

(** Code 7 has no entry in the sample table. *)
Lemma unknown_op_example :
  final (_incommingMessage Scenario.sample_IPCEvents Scenario.sample_methods
           {| data := DataObject (Scenario.Code 7) |} 5%nat) = 5%nat
  /\ thrown (_incommingMessage Scenario.sample_IPCEvents Scenario.sample_methods
               {| data := DataObject (Scenario.Code 7) |} 5%nat) = None
  /\ invoked (_incommingMessage Scenario.sample_IPCEvents Scenario.sample_methods
                {| data := DataObject (Scenario.Code 7) |} 5%nat) = [].
Proof.
  apply (unknown_op_is_dropped Scenario.sample_IPCEvents Scenario.sample_methods
           {| data := DataObject (Scenario.Code 7) |} 5%nat (Scenario.Code 7));
    reflexivity.
Defined.

(** C4, at a concrete input: code 7 has no entry in the sample table and
    is dropped. *)
Lemma unrecognized_op_example :
  _incommingMessage Scenario.sample_IPCEvents Scenario.sample_methods
    {| data := DataObject (Scenario.Code 7) |} 5%nat
  = {| final := 5%nat; thrown := None; invoked := [] |}.
Proof.
  apply (proj1 (unrecognized_op_dropped_or_raises Scenario.sample_IPCEvents
                  Scenario.sample_methods
                  {| data := DataObject (Scenario.Code 7) |} 5%nat
                  (Scenario.Code 7) eq_refl)).
  left. reflexivity.
Defined.

(** C4, the claim as stated fails: [READY] and [constructor] are no op
    codes, the table gives no event name for them and no handler is keyed
    by them, yet a message that carries one of them is not dropped: the
    dispatcher throws a [TypeError]. *)
Lemma unrecognized_op_raises :
  Scenario.sample_IPCEvents (Scenario.Name "READY") = LOther
  /\ thrown (_incommingMessage Scenario.sample_IPCEvents Scenario.sample_methods
               {| data := DataObject (Scenario.Name "READY") |} 5%nat)
     = Some TypeError
  /\ Scenario.sample_IPCEvents (Scenario.Name "constructor") = LOther
  /\ thrown (_incommingMessage Scenario.sample_IPCEvents Scenario.sample_methods
               {| data := DataObject (Scenario.Name "constructor") |} 5%nat)
     = Some TypeError.
Proof. repeat split. Qed.

(** The sample table dispatches code 3 to [_ready]; the name [READY] and an
    event without a handler make the call throw. *)
Example sample_dispatch :
  _incommingMessage Scenario.sample_IPCEvents Scenario.sample_methods
    {| data := DataObject (Scenario.Code 3) |} 5%nat
  = {| final := 6%nat; thrown := None; invoked := ["_ready"] |}
  /\ thrown (_incommingMessage Scenario.sample_IPCEvents Scenario.sample_methods
               {| data := DataObject (Scenario.Name "READY") |} 5%nat)
     = Some TypeError
  /\ thrown (_incommingMessage Scenario.sample_IPCEvents Scenario.sample_methods
               {| data := DataObject (Scenario.Code 0) |} 5%nat)
     = Some TypeError.
Proof. repeat split. Qed.

End DispatchClaims.

(** * Further properties of the code *)

(** ** Arithmetic on whole milliseconds *)

Module JSArith.

Import JS JSFacts.



Lemma Qcle_ofZ (a b : Z) :
  a <= b -> (Q2Qc (inject_Z a) <= Q2Qc (inject_Z b))%Qc.
Proof.
  intros Hab. apply Qcle_alt. rewrite Qccompare_ofZ.
  now apply Z.compare_le_iff.
Qed.

(** [now < r] at some reading of the clock holds at every earlier one. *)
Lemma jlt_earlier (a b : Z) (r : JNum) :
  a <= b -> jlt (ofZ b) r = true -> jlt (ofZ a) r = true.
Proof.
  intros Hab. unfold ofZ. destruct r as [q| | |]; cbn; try easy.
  rewrite !Qc_ltb_lt. intros Hlt.
  eapply Qcle_lt_trans; [apply Qcle_ofZ, Hab | exact Hlt].
Qed.

(** Nothing is below [NaN], and nothing is above it. *)
Lemma jlt_NaN_r (a : JNum) : jlt a NaN = false.
Proof. now destruct a. Qed.

Lemma jsub_NaN_r (a : JNum) : jsub a NaN = NaN.
Proof. now destruct a. Qed.

Lemma jsub_NaN_l (a : JNum) : jsub NaN a = NaN.
Proof. now destruct a. Qed.

Lemma jadd_NaN_l (a : JNum) : jadd NaN a = NaN.
Proof. now destruct a. Qed.

End JSArith.

(** ** The bucket, one update at a time *)

Module BucketExtras.

Import JS Ratelimit Derived JSFacts JSArith UpdateFacts.

(** X1: a bucket as it is constructed is not limited, unless a global halt is
    set: its [remaining] is -1 but its [reset], -1 as well, is not ahead of
    any clock reading from -1 on. *)
Theorem fresh_bucket_not_limited (i h r : string) (w : World) :
  truthy_num (timeout (manager w)) = false ->
  -1 <= clock w ->
  limited {| this := new_AzumaRatelimit i h r; world := w |} = false.
Proof.
  intros Hhalt Hclock. unfold limited, new_AzumaRatelimit. cbn [this world remaining reset].
  rewrite Hhalt, jle_ofZ, jlt_ofZ. cbn.
  apply Z.ltb_ge. exact Hclock.
Qed.

(** X1, at a concrete input. *)
Lemma fresh_bucket_not_limited_example :
  limited {| this := new_AzumaRatelimit "A:1" "A" "/channels/1";
             world := world Scenario.st0 |} = false.
Proof.
  apply fresh_bucket_not_limited; [reflexivity | cbn; lia].
Defined.

(** Without a global halt, a bucket is limited only while the clock reads
    less than its [reset]. *)
Lemma limited_needs_reset_ahead (st : St) :
  truthy_num (timeout (manager (world st))) = false ->
  jlt (ofZ (clock (world st))) (reset (this st)) = false ->
  limited st = false.
Proof.
  intros Hhalt Hreset. unfold limited. rewrite Hhalt, Hreset.
  now rewrite andb_false_r.
Qed.

Section AnyDateParse.

Variable DateParse : string -> JNum.

Local Abbreviation upd m r d st := (snd (update_body DateParse m r d st)).

Lemma update_config m r d st :
  sweepInterval (azuma (manager (world (upd m r d st))))
  = sweepInterval (azuma (manager (world st)))
  /\ requestOffset (azuma (manager (world (upd m r d st))))
     = requestOffset (azuma (manager (world st))).
Proof. run_update. split_flags; auto. Qed.

(** The bucket that [update] leaves, field by field. *)
Lemma update_this m r d st :
  this (upd m r d st) =
  {| id := id (this st); hash := hash (this st); route := route (this st);
     limit := limit (this (upd m r d st));
     remaining := remaining (this (upd m r d st));
     reset := reset (this (upd m r d st));
     after := after (this (upd m r d st)) |}.
Proof.
  destruct (update_identity DateParse m r d st) as (Hid & Hhash & Hroute).
  destruct (this (upd m r d st)); cbn in *. congruence.
Qed.

(** X2: the last update wins: whatever an earlier update wrote to the bucket is
    overwritten by the next one, so that the bucket after two updates is
    the bucket after the second alone. *)
Theorem last_update_wins m1 r1 d1 m2 r2 d2 st :
  this (snd (update_body DateParse m2 r2 d2 (snd (update_body DateParse m1 r1 d1 st))))
  = this (snd (update_body DateParse m2 r2 d2 st)).
Proof.
  rewrite (update_this m2 r2 d2 (upd m1 r1 d1 st)), (update_this m2 r2 d2 st).
  destruct (update_identity DateParse m1 r1 d1 st) as (-> & -> & ->).
  rewrite !update_limit, !update_remaining, !update_after, !update_reset.
  cbn. rewrite update_clock.
  now rewrite (proj1 (update_config m1 r1 d1 st)).
Qed.

(** X3: in the registry, [update] touches the entry of its own route only: the
    hash recorded under any other key, the options and the clock are as
    before, and so are the halt and the pending clears unless the header
    set is flagged global. *)
Theorem update_leaves_other_routes m r d st (k : string) :
  k <> m +:+ ":" +:+ r ->
  hashes (manager (world (upd m r d st))) !! k = hashes (manager (world st)) !! k
  /\ sweepInterval (azuma (manager (world (upd m r d st))))
     = sweepInterval (azuma (manager (world st)))
  /\ requestOffset (azuma (manager (world (upd m r d st))))
     = requestOffset (azuma (manager (world st)))
  /\ clock (world (upd m r d st)) = clock (world st)
  /\ (truthy (d_global d) = false ->
      timeout (manager (world (upd m r d st))) = timeout (manager (world st))
      /\ timers (world (upd m r d st)) = timers (world st)).
Proof.
  intros Hk. split.
  - rewrite update_hashes. destruct (migrates d (this st)); [|reflexivity].
    apply lookup_insert_ne. congruence.
  - split; [apply update_config|]. split; [apply update_config|].
    split; [apply update_clock|].
    intros Hglobal. rewrite update_timeout, update_timers, Hglobal.
    now rewrite app_nil_r.
Qed.



(** *** Between updates *)

(** While only time passes and clears run, the bucket stays as it is, a
    halt that is not set stays unset and the clock does not go back. *)
Lemma passive_run_frame script : forall st st',
  forallb passive script = true ->
  run DateParse script st = Some st' ->
  this st' = this st
  /\ clock (world st) <= clock (world st')
  /\ (truthy_num (timeout (manager (world st))) = false ->
      truthy_num (timeout (manager (world st'))) = false).
Proof.
  induction script as [|a script IH]; intros st st' Hpassive Hrun; cbn in *.
  - injection Hrun as <-. repeat split; [lia | auto].
  - apply andb_true_iff in Hpassive as [Ha Hrest].
    destruct a as [d | i | m r arg]; cbn in *; [| |discriminate].
    + unfold tick in Hrun. destruct (0 <=? d) eqn:Hd; [|discriminate].
      apply Z.leb_le in Hd.
      destruct (IH _ _ Hrest Hrun) as (Hthis & Hclock & Hhalt). cbn in *.
      repeat split; [exact Hthis | lia | exact Hhalt].
    + unfold fire in Hrun.
      destruct (nth_error (timers (world st)) i) as [due|]; [|discriminate].
      destruct (due <=? clock (world st)); [|discriminate].
      destruct (IH _ _ Hrest Hrun) as (Hthis & Hclock & Hhalt). cbn in *.
      repeat split; [exact Hthis | exact Hclock |].
      intros _. now apply Hhalt.
Qed.

(** X6: a bucket that is not limited, with no global halt set, does not become
    limited by the passing of time or by a deferred clear: only an update
    can limit it. *)
Theorem only_an_update_limits script st st' :
  forallb passive script = true ->
  run DateParse script st = Some st' ->
  truthy_num (timeout (manager (world st))) = false ->
  limited st = false ->
  limited st' = false.
Proof.
  intros Hpassive Hrun Hhalt Hfree.
  destruct (passive_run_frame script st st' Hpassive Hrun) as (Hthis & Hclock & Hkeep).
  unfold limited in *. rewrite (Hkeep Hhalt), Hthis. rewrite Hhalt in Hfree.
  cbn [orb] in *. apply andb_false_iff in Hfree as [Hrem | Hreset].
  - now rewrite Hrem.
  - destruct (jlt (ofZ (clock (world st'))) (reset (this st))) eqn:E.
    + apply (jlt_earlier (clock (world st))) in E; [congruence | exact Hclock].
    + apply andb_false_r.
Qed.

(** With a reset that is not ahead of the clock and no halt, no later
    reading of the clock limits the bucket. *)
Lemma reset_not_ahead_never_limits script st st' :
  forallb passive script = true ->
  run DateParse script st = Some st' ->
  truthy_num (timeout (manager (world st))) = false ->
  jlt (ofZ (clock (world st))) (reset (this st)) = false ->
  limited st' = false.
Proof.
  intros Hpassive Hrun Hhalt Hreset.
  destruct (passive_run_frame script st st' Hpassive Hrun) as (Hthis & Hclock & Hkeep).
  apply limited_needs_reset_ahead; [now apply Hkeep|].
  rewrite Hthis.
  destruct (jlt (ofZ (clock (world st'))) (reset (this st))) eqn:E; [|reflexivity].
  apply (jlt_earlier (clock (world st))) in E; [congruence | exact Hclock].
Qed.

(** X7: a date header that does not parse never limits the bucket: whatever the
    other headers say, an update that is not flagged global leaves a reset
    that is NaN or the current time, so that without a halt the bucket is
    not limited, then or later. *)
Theorem unparseable_date_never_limits m r d st script st' :
  Date_getTime DateParse (d_date d) = NaN ->
  truthy (d_global d) = false ->
  truthy_num (timeout (manager (world st))) = false ->
  forallb passive script = true ->
  run DateParse script (upd m r d st) = Some st' ->
  limited st' = false.
Proof.
  intros Hdate Hglobal Hhalt Hpassive Hrun.
  eapply reset_not_ahead_never_limits; try eassumption.
  - now rewrite update_timeout, Hglobal.
  - rewrite update_reset, update_clock. cbv zeta. rewrite Hdate.
    destruct (truthy (d_reactions d)).
    + rewrite jsub_NaN_l, jadd_NaN_l. apply jlt_NaN_r.
    + destruct (negb (isNaN (d_reset d))).
      * rewrite jsub_NaN_l, jsub_NaN_r. apply jlt_NaN_r.
      * rewrite jlt_ofZ. apply Z.ltb_irrefl.
Qed.

(** X8: on a reactions route, an [Azuma] object without a [sweepInterval]
    property makes the reset NaN, so that without a halt the bucket is not
    limited, then or later, however few requests remain. *)
Theorem reactions_without_sweepInterval_never_limits m r d st script st' :
  truthy (d_reactions d) = true ->
  sweepInterval (azuma (manager (world st))) = None ->
  truthy (d_global d) = false ->
  truthy_num (timeout (manager (world st))) = false ->
  forallb passive script = true ->
  run DateParse script (upd m r d st) = Some st' ->
  limited st' = false.
Proof.
  intros Hreact Hnone Hglobal Hhalt Hpassive Hrun.
  eapply reset_not_ahead_never_limits; try eassumption.
  - now rewrite update_timeout, Hglobal.
  - rewrite update_reset. cbv zeta. rewrite Hreact, Hnone.
    cbn [number_or_undefined].
    destruct (jsub _ _); apply jlt_NaN_r.
Qed.

End AnyDateParse.

End BucketExtras.

(** ** The registry across the event loop *)

Module RegistryExtras.

Import JS Ratelimit Derived Invariants JSFacts JSArith UpdateFacts.

Lemma tick_inv d st st' :
  tick d st = Some st' ->
  this st' = this st /\ manager (world st') = manager (world st)
  /\ timers (world st') = timers (world st).
Proof.
  unfold tick. destruct (0 <=? d); [|discriminate].
  intros E. injection E as <-. auto.
Qed.

Lemma fire_inv i st st' :
  fire i st = Some st' ->
  this st' = this st
  /\ azuma (manager (world st')) = azuma (manager (world st))
  /\ hashes (manager (world st')) = hashes (manager (world st))
  /\ timeout (manager (world st')) = ofZ 0.
Proof.
  unfold fire. destruct (nth_error _ i) as [due|]; [|discriminate].
  destruct (due <=? _); [|discriminate].
  intros E. injection E as <-. auto.
Qed.

Section AnyDateParse.

Variable DateParse : string -> JNum.

Local Abbreviation upd m r d st := (snd (update_body DateParse m r d st)).

Lemma update_keeps_halt_guarded m r d st :
  halt_guarded st = true -> halt_guarded (upd m r d st) = true.
Proof.
  unfold halt_guarded. rewrite update_timeout, update_timers.
  destruct (truthy (d_global d)).
  - intros _. destruct (timers (world st)); cbn; apply implb_true_r.
  - now rewrite app_nil_r.
Qed.

Lemma exec_keeps_halt_guarded a st st' :
  halt_guarded st = true -> exec DateParse a st = Some st' ->
  halt_guarded st' = true.
Proof.
  intros Hinv. destruct a as [d | i | m r arg]; cbn.
  - intros E. apply tick_inv in E as (_ & Hm & Ht).
    unfold halt_guarded in *. now rewrite Hm, Ht.
  - intros E. apply fire_inv in E as (_ & _ & _ & Hz).
    unfold halt_guarded. now rewrite Hz.
  - destruct arg; cbn; intros E; injection E as <-;
      try exact Hinv; now apply update_keeps_halt_guarded.
Qed.

(** X9: no halt without its clear: if every set halt has a clear pending, this
    stays so through every interleaving of updates, passing time and
    clears that run.  A halt that [update] sets can therefore always still
    be cleared. *)
Theorem halt_always_has_pending_clear script : forall st st',
  halt_guarded st = true ->
  run DateParse script st = Some st' ->
  halt_guarded st' = true.
Proof.
  induction script as [|a script IH]; intros st st' Hinv Hrun; cbn in Hrun.
  - now injection Hrun as <-.
  - destruct (exec DateParse a st) as [st1|] eqn:E; [|discriminate].
    eapply IH; [|exact Hrun]. eapply exec_keeps_halt_guarded; eassumption.
Qed.

(** X10: a global halt limits every bucket that shares the manager,
    whatever its own counters: when an update flagged global with a numeric
    retry-after sets a halt value [now() + R * 1000] that is not zero, and
    no earlier clear was pending, every bucket is limited from the update
    on and for as long as the clock reads less than the time the clear is
    due, while only time passes and clears run. *)
Theorem global_halt_limits_every_bucket m r d st script st' (b : AzumaRatelimit) :
  truthy (d_global d) = true ->
  isNaN (d_after d) = false ->
  truthy_num (jadd (ofZ (clock (world st))) (jmul (Number (d_after d)) (ofZ 1000)))
  = true ->
  timers (world st) = [] ->
  forallb passive script = true ->
  run DateParse script (upd m r d st) = Some st' ->
  clock (world st') < clock (world st) + timer_delay (jmul (Number (d_after d)) (ofZ 1000)) ->
  limited {| this := b; world := world st' |} = true.
Proof.
  intros Hglobal Hnum Hset Hnone Hpassive Hrun Hdue.
  assert (after_of d = jmul (Number (d_after d)) (ofZ 1000)) as Hafter.
  { unfold after_of. now rewrite Hnum. }
  assert (timeout (manager (world st')) = timeout (manager (world (upd m r d st)))) as Hkept.
  { eapply RegistryClaims.passive_run_single_timer; try eassumption.
    now rewrite update_timers, Hglobal, Hnone, Hafter. }
  unfold limited. cbn [this world]. rewrite Hkept, update_timeout, Hglobal, Hafter.
  now rewrite Hset.
Qed.

(** X11: whatever the steps, the bucket keeps its id, hash and route, the debug
    events emitted so far stay at the head of the log, and the options of
    the [Azuma] object are not written. *)
Theorem identity_and_log_are_stable script : forall st st',
  run DateParse script st = Some st' ->
  id (this st') = id (this st)
  /\ hash (this st') = hash (this st)
  /\ route (this st') = route (this st)
  /\ (exists more, emitted (azuma (manager (world st')))
                   = emitted (azuma (manager (world st))) ++ more)
  /\ sweepInterval (azuma (manager (world st')))
     = sweepInterval (azuma (manager (world st)))
  /\ requestOffset (azuma (manager (world st')))
     = requestOffset (azuma (manager (world st))).
Proof.
  induction script as [|a script IH]; intros st st' Hrun; cbn in Hrun.
  - injection Hrun as <-. repeat split; try reflexivity.
    exists []. now rewrite app_nil_r.
  - destruct (exec DateParse a st) as [st1|] eqn:E; [|discriminate].
    destruct (IH _ _ Hrun) as (Hid & Hhash & Hroute & [more Hlog] & Hsweep & Hoff).
    assert (id (this st1) = id (this st) /\ hash (this st1) = hash (this st)
            /\ route (this st1) = route (this st)
            /\ (exists more, emitted (azuma (manager (world st1)))
                             = emitted (azuma (manager (world st))) ++ more)
            /\ sweepInterval (azuma (manager (world st1)))
               = sweepInterval (azuma (manager (world st)))
            /\ requestOffset (azuma (manager (world st1)))
               = requestOffset (azuma (manager (world st))))
      as (Hid1 & Hhash1 & Hroute1 & [more1 Hlog1] & Hsweep1 & Hoff1).
    { destruct a as [d | i | m r arg]; cbn [exec update] in E.
      - apply tick_inv in E as (-> & -> & _).
        repeat split; try reflexivity. exists []. now rewrite app_nil_r.
      - apply fire_inv in E as (-> & -> & _ & _).
        repeat split; try reflexivity. exists []. now rewrite app_nil_r.
      - assert (forall d, id (this (upd m r d st)) = id (this st)
                 /\ hash (this (upd m r d st)) = hash (this st)
                 /\ route (this (upd m r d st)) = route (this st)
                 /\ (exists more, emitted (azuma (manager (world (upd m r d st))))
                                  = emitted (azuma (manager (world st))) ++ more)
                 /\ sweepInterval (azuma (manager (world (upd m r d st))))
                    = sweepInterval (azuma (manager (world st)))
                 /\ requestOffset (azuma (manager (world (upd m r d st))))
                    = requestOffset (azuma (manager (world st)))) as Hupd.
        { intros d.
          destruct (update_identity DateParse m r d st) as (H1 & H2 & H3).
          destruct (BucketExtras.update_config DateParse m r d st) as (H4 & H5).
          repeat split; try assumption.
          rewrite update_emitted. eauto. }
        destruct arg as [| |d]; cbn [exec update] in E; injection E as <-.
        + exact (Hupd empty_Data).
        + repeat split; try reflexivity. exists []. now rewrite app_nil_r.
        + exact (Hupd d). }
    repeat split; try congruence.
    exists (more1 ++ more). now rewrite Hlog, Hlog1, app_assoc.
Qed.

(** X12: any value of the [x-ratelimit-global] header halts: the header set that
    [constructData] builds flags the response global as soon as the header
    is present and not empty, whatever it says, and [update] then sets the
    halt and schedules its clear. *)
Theorem any_global_header_value_halts rq h d m r st (s : string) :
  constructData (Some rq) (Some h) = Normal d ->
  get h "x-ratelimit-global" = VStr s ->
  s <> "" ->
  timeout (manager (world (upd m r d st))) = jadd (ofZ (clock (world st))) (after_of d)
  /\ timers (world (upd m r d st))
     = timers (world st) ++ [clock (world st) + timer_delay (after_of d)].
Proof.
  intros Hdata Hget Hs. injection Hdata as <-.
  rewrite update_timeout, update_timers. cbn [d_global truthy].
  rewrite Hget. destruct s as [|c s]; [contradiction|]. cbn. auto.
Qed.

End AnyDateParse.

End RegistryExtras.

(** ** The extras at concrete inputs *)

Module ExtraExamples.

Import JS Ratelimit Derived Invariants JSFacts JSArith UpdateFacts.

(** X3, at a concrete input. *)
Lemma update_leaves_other_routes_example :
  hashes (manager (world (snd (update_body Scenario.parse_a_date "GET" "/channels/1"
                                 (Scenario.plain "20" (VStr "B")) Scenario.st0))))
    !! "GET:/guilds/2"
  = hashes (manager (world Scenario.st0)) !! "GET:/guilds/2".
Proof.
  apply (BucketExtras.update_leaves_other_routes Scenario.parse_a_date
           "GET" "/channels/1" (Scenario.plain "20" (VStr "B")) Scenario.st0
           "GET:/guilds/2").
  discriminate.
Defined.


(** X4 does not reach a product that is not whole: for the reset header
    [1.001], which doubles multiply to 1000.9999999999999, the reset is
    1000 and on a server date of 1000 the bucket is not limited. *)
Example limited_after_update_with_rounded_product :
  reset (this (snd (update_body Scenario.parse_a_date "GET" "/channels/1"
                      (Scenario.exhausted Scenario.a_date "1.001") Scenario.st0)))
  = ofZ 1000
  /\ limited (snd (update_body Scenario.parse_a_date "GET" "/channels/1"
                     (Scenario.exhausted Scenario.a_date "1.001") Scenario.st0))
     = false.
Proof. split; jnum_eq. Qed.


(** X6, at a concrete input. *)
Lemma only_an_update_limits_example :
  exists st', run Scenario.parse_a_date [Tick 5000; Tick 20000] Scenario.st0 = Some st'
              /\ limited st' = false.
Proof.
  eexists. split; [vm_compute; reflexivity|].
  eapply (BucketExtras.only_an_update_limits Scenario.parse_a_date
            [Tick 5000; Tick 20000] Scenario.st0); vm_compute; reflexivity.
Defined.

(** X7, at a concrete input. *)
Lemma unparseable_date_never_limits_example :
  exists st',
    run Scenario.parse_a_date [Tick 1]
      (snd (update_body Scenario.parse_a_date "GET" "/channels/1"
              (Scenario.exhausted "yesterday" "20") Scenario.st0)) = Some st'
    /\ limited st' = false.
Proof.
  eexists. split; [vm_compute; reflexivity|].
  eapply (BucketExtras.unparseable_date_never_limits Scenario.parse_a_date
            "GET" "/channels/1" (Scenario.exhausted "yesterday" "20") Scenario.st0
            [Tick 1]); vm_compute; reflexivity.
Defined.

(** X8, at a concrete input. *)
Lemma reactions_without_sweepInterval_example :
  exists st',
    run Scenario.parse_a_date [Tick 1]
      (snd (update_body Scenario.parse_a_date "PUT" "/channels/1/reactions"
              (Scenario.on_reactions "20") Scenario.st0)) = Some st'
    /\ limited st' = false.
Proof.
  eexists. split; [vm_compute; reflexivity|].
  eapply (BucketExtras.reactions_without_sweepInterval_never_limits
            Scenario.parse_a_date "PUT" "/channels/1/reactions"
            (Scenario.on_reactions "20") Scenario.st0 [Tick 1]); vm_compute; reflexivity.
Defined.

(** X9, at a concrete input. *)
Lemma halt_always_has_pending_clear_example :
  exists st', Scenario.after_script Scenario.overlapping_halts = Some st'
              /\ halt_guarded st' = true.
Proof.
  eexists. split; [vm_compute; reflexivity|].
  eapply (RegistryExtras.halt_always_has_pending_clear Scenario.parse_a_date
            Scenario.overlapping_halts Scenario.st0); vm_compute; reflexivity.
Defined.

(** X10, at a concrete input. *)
Lemma global_halt_limits_every_bucket_example :
  exists st',
    run Scenario.parse_a_date [Tick 9999]
      (snd (update_body Scenario.parse_a_date "GET" "/channels/1"
              (Scenario.global_halt "10") Scenario.st0)) = Some st'
    /\ limited {| this := new_AzumaRatelimit "B:2" "B" "/guilds/2";
                  world := world st' |} = true.
Proof.
  eexists. split; [vm_compute; reflexivity|].
  eapply (RegistryExtras.global_halt_limits_every_bucket Scenario.parse_a_date
            "GET" "/channels/1" (Scenario.global_halt "10") Scenario.st0
            [Tick 9999]);
    vm_compute; first [reflexivity | discriminate].
Defined.

(** X11, at a concrete input. *)
Lemma identity_and_log_are_stable_example :
  exists st', Scenario.after_script Scenario.overlapping_halts = Some st'
              /\ hash (this st') = "A".
Proof.
  eexists. split; [vm_compute; reflexivity|].
  apply (RegistryExtras.identity_and_log_are_stable Scenario.parse_a_date
           Scenario.overlapping_halts Scenario.st0).
  vm_compute; reflexivity.
Defined.

(** X12, at a concrete input. *)
Lemma any_global_header_value_halts_example :
  exists d,
    constructData (Some Scenario.a_request) (Some Scenario.global_false_headers)
    = Normal d
    /\ timeout (manager (world (snd (update_body Scenario.parse_a_date "GET"
                                       "/channels/1" d Scenario.st0))))
       = ofZ 6000.
Proof.
  eexists. split; [reflexivity|].
  etransitivity.
  - apply (RegistryExtras.any_global_header_value_halts
             Scenario.parse_a_date Scenario.a_request
             Scenario.global_false_headers _ "GET" "/channels/1"
             Scenario.st0 "false" eq_refl eq_refl).
    discriminate.
  - jnum_eq.
Defined.

End ExtraExamples.

(** ** The dispatcher, case by case *)

Module DispatchExtras.

Import IPC.

Section AnyTable.

Context {Op State : Type}.
Variable IPCEvents : Op -> Lookup.
Variable methods : string -> option (Handler Op State).

(** X13: the dispatcher invokes at most one handler, and it invokes the handler
    [n] exactly when the table holds a string under the message's [op],
    that string in lower case is not empty, [n] is that lower-case string
    after an underscore, and the IPC object has a method of that name. *)
Theorem handler_runs_only_for_named_event (message : Message Op) (s : State) :
  (List.length (invoked (_incommingMessage IPCEvents methods message s)) <= 1)%nat
  /\ forall n : string,
       In n (invoked (_incommingMessage IPCEvents methods message s)) <->
       exists op name handler,
         data message = DataObject op
         /\ IPCEvents op = LString name
         /\ Str.toLowerCase name <> ""
         /\ n = "_" +:+ Str.toLowerCase name
         /\ methods n = Some handler.
Proof.
  unfold _incommingMessage.
  destruct message as [[| |op]]; cbn [data].
  1,2: split; [cbn; lia|]; intros n; split;
       [intros [] | intros (op & name & hd & E & _); discriminate E].
  destruct (IPCEvents op) as [| |name|] eqn:Hop.
  1,2,4: split; [cbn; lia|]; intros n; split;
         [intros [] | intros (op' & name' & hd & E & E' & _);
                      injection E as <-; congruence].
  destruct (Str.toLowerCase name) as [|c ev] eqn:Hev.
  - split; [cbn; lia|]. intros n. split; [intros []|].
    intros (op' & name' & hd & E & E' & Hne & _).
    injection E as <-. rewrite Hop in E'. injection E' as <-. congruence.
  - destruct (methods ("_" +:+ String c ev)) as [handler|] eqn:Hm.
    + destruct (handler {| data := DataObject op |} s) as [s' e].
      split; [cbn; lia|]. intros n. cbn [invoked In]. split.
      * intros [<- | []]. exists op, name, handler.
        rewrite Hev. repeat split; try assumption. discriminate.
      * intros (op' & name' & hd & E & E' & _ & -> & _).
        injection E as <-. rewrite Hop in E'. injection E' as <-.
        left. now rewrite Hev.
    + split; [cbn; lia|]. intros n. split; [intros []|].
      intros (op' & name' & hd & E & E' & _ & -> & Hm').
      injection E as <-. rewrite Hop in E'. injection E' as <-.
      rewrite Hev in Hm'. congruence.
Qed.

(** X14: what the dispatcher does by itself changes nothing: when no handler was
    invoked the state is as before, and the call either returned or threw a
    [TypeError]; any other error comes from a handler. *)
Theorem dispatcher_alone_changes_nothing (message : Message Op) (s : State) :
  invoked (_incommingMessage IPCEvents methods message s) = [] ->
  final (_incommingMessage IPCEvents methods message s) = s
  /\ (thrown (_incommingMessage IPCEvents methods message s) = None
      \/ thrown (_incommingMessage IPCEvents methods message s) = Some TypeError).
Proof.
  unfold _incommingMessage.
  destruct message as [[| |op]]; cbn [data]; try (cbn; auto; fail).
  destruct (IPCEvents op) as [| |name|]; try (cbn; auto; fail).
  destruct (Str.toLowerCase name) as [|c ev]; [cbn; auto|].
  destruct (methods ("_" +:+ String c ev)) as [handler|]; [|cbn; auto].
  destruct (handler _ s) as [s' e]. cbn. discriminate.
Qed.

(** X15: an event that the table names but the IPC object has no method for is
    not dropped: the call throws a [TypeError], with the state as it was. *)
Theorem event_without_method_raises (message : Message Op) (s : State) op name :
  data message = DataObject op ->
  IPCEvents op = LString name ->
  Str.toLowerCase name <> "" ->
  methods ("_" +:+ Str.toLowerCase name) = None ->
  _incommingMessage IPCEvents methods message s = threw s TypeError.
Proof.
  intros Hdata Hop Hne Hm. unfold _incommingMessage. rewrite Hdata, Hop.
  destruct (Str.toLowerCase name) as [|c ev]; [contradiction|].
  now rewrite Hm.
Qed.

End AnyTable.

(** X14, at a concrete input. *)
Lemma dispatcher_alone_changes_nothing_example :
  final (_incommingMessage Scenario.sample_IPCEvents Scenario.sample_methods
           {| data := DataObject (Scenario.Name "READY") |} 5%nat) = 5%nat
  /\ (thrown (_incommingMessage Scenario.sample_IPCEvents Scenario.sample_methods
                {| data := DataObject (Scenario.Name "READY") |} 5%nat) = None
      \/ thrown (_incommingMessage Scenario.sample_IPCEvents Scenario.sample_methods
                   {| data := DataObject (Scenario.Name "READY") |} 5%nat)
         = Some TypeError).
Proof.
  apply (dispatcher_alone_changes_nothing Scenario.sample_IPCEvents
           Scenario.sample_methods
           {| data := DataObject (Scenario.Name "READY") |} 5%nat).
  reflexivity.
Defined.

(** X15, at a concrete input. *)
Lemma event_without_method_raises_example :
  _incommingMessage Scenario.sample_IPCEvents Scenario.sample_methods
    {| data := DataObject (Scenario.Code 0) |} 5%nat
  = threw 5%nat TypeError.
Proof.
  apply (event_without_method_raises Scenario.sample_IPCEvents
           Scenario.sample_methods
           {| data := DataObject (Scenario.Code 0) |} 5%nat
           (Scenario.Code 0) "EVAL");
    [reflexivity | reflexivity | discriminate | reflexivity].
Defined.

End DispatchExtras.
